(** * loraserver: the uplink pipeline, its supervisor and the management API

    A shallow embedding of
    - [internal/loraserver/loraserver.go]: [Server.Start], [Server.Stop],
      the three stream loops, the dispatcher [handleRXPacket], and the
      JSON-RPC [API] for node sessions;
    - [internal/api/node.go]: [NodeAPI.Update] and
      [NodeAPI.FlushTXPayloadQueue].

    Go values become Rocq records, [error] results become an inductive
    [Error], and every function that touches the database, Redis or a
    backend takes the state it touches and returns the new one.  The
    goroutines of the supervisor become a labelled step function on a
    server state. *)

From Stdlib Require Import ZArith String List Lia.
From stdpp Require Import base option functions list gmap strings fin_maps.

Local Open Scope Z_scope.
Local Open Scope string_scope.
Local Open Scope list_scope.

(** ** Types of the lorawan package

    [github.com/brocaar/lorawan] is a dependency, not part of this
    repository.  Its byte arrays are kept as unsigned integers of the same
    width: [EUI64] is [[8]byte], [DevAddr] is [[4]byte], [NetID] is
    [[3]byte], [AES128Key] is [[16]byte]. *)

Abbreviation byte := Z.
Abbreviation EUI64 := Z.
Abbreviation DevAddr := Z.
Abbreviation NetID := Z.
Abbreviation AES128Key := Z.

(** [lorawan.MType]: the three-bit message type of the MAC header. *)
Inductive MType : Type :=
| JoinRequest
| JoinAccept
| UnconfirmedDataUp
| UnconfirmedDataDown
| ConfirmedDataUp
| ConfirmedDataDown
| RFU
| Proprietary.

#[global] Instance MType_eq_dec : EqDecision MType.
Proof. solve_decision. Defined.

(** Go's conversion [uint8(x)] of a wider unsigned integer. *)
Definition uint8 (x : Z) : Z := x mod 256.

(** ** Errors

    One constructor per [fmt.Errorf] of the two source files, plus the
    error kinds the collaborators report. *)
Inductive Error : Type :=
| ErrUnknownMType (m : MType)         (* "unknown MType: %v" *)
| ErrCloseGateway (cause : Error)     (* "close gateway backend error: %s" *)
| ErrCloseApplication (cause : Error) (* "close application backend error: %s" *)
| ErrCloseController (cause : Error)  (* "close network-controller backend error: %s" *)
| ErrNwkID (nwkID : byte)             (* "DevAddr must contain NwkID %s" *)
| AuthenticationError
| ReplayError
| NotFoundError
| SessionNotFoundError
| AllocationError
| ErrText (msg : string)              (* unparseable identity or key text *)
| ErrIO (msg : string).               (* failure reported by a store or a backend *)

#[global] Instance Error_eq_dec : EqDecision Error.
Proof. solve_decision. Defined.

(** ** Records of the models package *)

Record Node : Type := mkNode {
  node_DevEUI : EUI64;
  node_AppEUI : EUI64;
  node_AppKey : AES128Key;
  node_RXDelay : byte;
  node_RX1DROffset : byte;
  node_ChannelListID : option Z         (* *int64, nil is None *)
}.

Record Application : Type := mkApplication {
  app_AppEUI : EUI64;
  app_Name : string
}.

Record NodeSession : Type := mkNodeSession {
  ns_DevAddr : DevAddr;
  ns_DevEUI : EUI64;
  ns_AppEUI : EUI64;
  ns_AppSKey : AES128Key;
  ns_NwkSKey : AES128Key;
  ns_FCntUp : Z;
  ns_FCntDown : Z
}.

Record TXPayload : Type := mkTXPayload {
  tx_DevEUI : EUI64;
  tx_Reference : string;
  tx_Data : list byte
}.

Record MACPayload : Type := mkMACPayload {
  mac_DevEUI : EUI64;
  mac_Reference : string;
  mac_MACCommand : list byte
}.

(** The part of a PHYPayload the pipeline looks at.  A join request
    carries the two identities and a nonce; a data frame carries the
    address, the counter, MAC commands and an optional application
    payload. *)
Inductive FramePayload : Type :=
| JoinRequestPayload (appEUI devEUI : EUI64) (devNonce : Z)
| DataPayload (devAddr : DevAddr) (fCnt : Z)
    (fOpts : list (list byte))            (* piggybacked MAC commands *)
    (macCommands : list (list byte))      (* standalone MAC commands *)
    (frmPayload : option (list byte))     (* application payload, encrypted *)
| OpaquePayload (raw : list byte).

Record PHYPayload : Type := mkPHYPayload {
  MHDR_MType : MType;
  phy_MACPayload : FramePayload;
  phy_MIC : Z
}.

Record RXInfo : Type := mkRXInfo {
  rx_MAC : EUI64;       (* gateway identity *)
  rx_Time : Z;
  rx_RSSI : Z
}.

Record RXPacket : Type := mkRXPacket {
  rxp_RXInfo : RXInfo;
  rxp_PHYPayload : PHYPayload
}.

#[global] Instance Node_eq_dec : EqDecision Node.
Proof. solve_decision. Defined.
#[global] Instance NodeSession_eq_dec : EqDecision NodeSession.
Proof. solve_decision. Defined.
#[global] Instance TXPayload_eq_dec : EqDecision TXPayload.
Proof. solve_decision. Defined.
#[global] Instance MACPayload_eq_dec : EqDecision MACPayload.
Proof. solve_decision. Defined.

(** What the core pushes to the backends. *)
Record TXPacket : Type := mkTXPacket {
  txp_PHYPayload : PHYPayload
}.

Record RXPayload : Type := mkRXPayload {
  rxpl_DevEUI : EUI64;
  rxpl_AppEUI : EUI64;
  rxpl_Data : list byte
}.

(** Requests of the gRPC layer ([pb]), as far as [node.go] reads them. *)
Record UpdateNodeRequest : Type := mkUpdateNodeRequest {
  req_DevEUI : string;
  req_AppEUI : string;
  req_AppKey : string;
  req_RxDelay : Z;          (* uint32 *)
  req_Rx1DROffset : Z;      (* uint32 *)
  req_ChannelListID : Z     (* int64 *)
}.

Record FlushTXPayloadQueueRequest : Type := mkFlushTXPayloadQueueRequest {
  flush_DevEUI : string
}.

(** ** Collaborators

    Functions the two files call and that live elsewhere: methods of the
    lorawan package, and the storage functions of this repository
    ([GetNode], [CreateNodeSession], ...).  They are class methods, so
    that what is proved of the callers holds for every implementation;
    an instance that follows the specification of the stores is given
    further down. *)

Class Lorawan : Type := {
  DevAddr_NwkID : DevAddr -> byte;
  NetID_NwkID : NetID -> byte;
  EUI64_UnmarshalText : string -> Error + EUI64;
  AES128Key_UnmarshalText : string -> Error + AES128Key
}.

Class Storage : Type := {
  DBT : Type;
  RedisT : Type;
  GetNode : DBT -> EUI64 -> Error + Node;
  GetApplication : DBT -> EUI64 -> Error + Application;
  UpdateNode : DBT -> Node -> DBT * option Error;
  GetNodeSession : RedisT -> DevAddr -> Error + NodeSession;
  CreateNodeSession : RedisT -> NodeSession -> RedisT * option Error;
  SaveNodeSession : RedisT -> NodeSession -> RedisT * option Error;
  GetTXPayloadQueue : RedisT -> EUI64 -> Error + list TXPayload;
  FlushTXPayloadQueue : RedisT -> EUI64 -> RedisT * option Error;
  AddTXPayloadToQueue : RedisT -> TXPayload -> RedisT * option Error;
  AddMACPayloadToTXQueue : RedisT -> MACPayload -> RedisT * option Error
}.

(** [loraserver.Context]: the handles every component is given.  The
    database and Redis are the states behind the handles; of a backend
    the context holds what the core has pushed to it.  The channel a
    backend produces and its close operation are kept with the server
    state below, apart from what a packet processor can reach. *)
Record Context `{Storage} : Type := mkContext {
  ctx_DB : DBT;
  ctx_RedisPool : RedisT;
  ctx_NetID : NetID;
  ctx_Gateway : list TXPacket;
  ctx_Application : list RXPayload;
  ctx_Controller : list MACPayload
}.

Section Setters.
Context `{Storage}.

Definition set_DB (ctx : Context) (db : DBT) : Context :=
  mkContext _ db (ctx_RedisPool ctx) (ctx_NetID ctx)
    (ctx_Gateway ctx) (ctx_Application ctx) (ctx_Controller ctx).

Definition set_RedisPool (ctx : Context) (p : RedisT) : Context :=
  mkContext _ (ctx_DB ctx) p (ctx_NetID ctx)
    (ctx_Gateway ctx) (ctx_Application ctx) (ctx_Controller ctx).

Definition set_Gateway (ctx : Context) (l : list TXPacket) : Context :=
  mkContext _ (ctx_DB ctx) (ctx_RedisPool ctx) (ctx_NetID ctx)
    l (ctx_Application ctx) (ctx_Controller ctx).

Definition set_Application (ctx : Context) (l : list RXPayload) : Context :=
  mkContext _ (ctx_DB ctx) (ctx_RedisPool ctx) (ctx_NetID ctx)
    (ctx_Gateway ctx) l (ctx_Controller ctx).

Definition set_Controller (ctx : Context) (l : list MACPayload) : Context :=
  mkContext _ (ctx_DB ctx) (ctx_RedisPool ctx) (ctx_NetID ctx)
    (ctx_Gateway ctx) (ctx_Application ctx) l.
End Setters.

(** The two packet processors [handleRXPacket] hands a frame to. *)
Class Processors `{Storage} : Type := {
  validateAndCollectJoinRequestPacket : Context -> RXPacket -> Context * option Error;
  validateAndCollectDataUpRXPacket : Context -> RXPacket -> Context * option Error
}.

(** ** loraserver.go: the dispatcher *)

Section Dispatcher.
Context `{Processors}.

Definition handleRXPacket (ctx : Context) (rxPacket : RXPacket)
  : Context * option Error :=
  match MHDR_MType (rxp_PHYPayload rxPacket) with
  | JoinRequest => validateAndCollectJoinRequestPacket ctx rxPacket
  | UnconfirmedDataUp | ConfirmedDataUp =>
      validateAndCollectDataUpRXPacket ctx rxPacket
  | m => (ctx, Some (ErrUnknownMType m))
  end.
End Dispatcher.

(** ** loraserver.go: the JSON-RPC API for node sessions

    A method [func (a *API) M(arg, out *T) error] becomes a function from
    the context and [arg] to the new context and either the error or the
    value stored through [out]. *)

Section API.
Context `{Lorawan} `{Storage}.

Definition API_GetNodeSession (ctx : Context) (devAddr : DevAddr)
  : Error + NodeSession :=
  GetNodeSession (ctx_RedisPool ctx) devAddr.

Definition API_CreateNodeSession (ctx : Context) (ns : NodeSession)
  : Context * (Error + DevAddr) :=
  (* validate the NwkID *)
  if decide (DevAddr_NwkID (ns_DevAddr ns) <> NetID_NwkID (ctx_NetID ctx)) then
    (ctx, inl (ErrNwkID (NetID_NwkID (ctx_NetID ctx))))
  else
    (* validate that the node exists *)
    match GetNode (ctx_DB ctx) (ns_DevEUI ns) with
    | inl err => (ctx, inl err)
    | inr _ =>
        (* validate that the app exists *)
        match GetApplication (ctx_DB ctx) (ns_AppEUI ns) with
        | inl err => (ctx, inl err)
        | inr _ =>
            match CreateNodeSession (ctx_RedisPool ctx) ns with
            | (pool, Some err) => (set_RedisPool ctx pool, inl err)
            | (pool, None) => (set_RedisPool ctx pool, inr (ns_DevAddr ns))
            end
        end
    end.

Definition API_UpdateNodeSession (ctx : Context) (ns : NodeSession)
  : Context * (Error + EUI64) :=
  match SaveNodeSession (ctx_RedisPool ctx) ns with
  | (pool, Some err) => (set_RedisPool ctx pool, inl err)
  | (pool, None) => (set_RedisPool ctx pool, inr (ns_DevEUI ns))
  end.
End API.

(** ** node.go: the gRPC node API *)

Section NodeAPI.
Context `{Lorawan} `{Storage}.

Definition NodeAPI_Update (ctx : Context) (req : UpdateNodeRequest)
  : Context * (Error + unit) :=
  match EUI64_UnmarshalText (req_AppEUI req) with
  | inl err => (ctx, inl err)
  | inr appEUI =>
  match EUI64_UnmarshalText (req_DevEUI req) with
  | inl err => (ctx, inl err)
  | inr devEUI =>
  match AES128Key_UnmarshalText (req_AppKey req) with
  | inl err => (ctx, inl err)
  | inr appKey =>
  match GetNode (ctx_DB ctx) devEUI with
  | inl err => (ctx, inl err)
  | inr node =>
      let node :=
        mkNode (node_DevEUI node) appEUI appKey
          (uint8 (req_RxDelay req)) (uint8 (req_Rx1DROffset req))
          (if decide (req_ChannelListID req > 0)
           then Some (req_ChannelListID req) else None) in
      match UpdateNode (ctx_DB ctx) node with
      | (db, Some err) => (set_DB ctx db, inl err)
      | (db, None) => (set_DB ctx db, inr tt)
      end
  end end end end.

Definition NodeAPI_FlushTXPayloadQueue (ctx : Context)
    (req : FlushTXPayloadQueueRequest) : Context * (Error + unit) :=
  match EUI64_UnmarshalText (flush_DevEUI req) with
  | inl err => (ctx, inl err)
  | inr eui =>
      match FlushTXPayloadQueue (ctx_RedisPool ctx) eui with
      | (pool, Some err) => (set_RedisPool ctx pool, inl err)
      | (pool, None) => (set_RedisPool ctx pool, inr tt)
      end
  end.
End NodeAPI.

(** ** loraserver.go: the supervisor

    [Server.Start] spawns one goroutine per backend; each registers with
    the server's WaitGroup and runs the loop of its stream; a loop spawns
    one goroutine per item it receives, which registers with the loop's
    own WaitGroup.  [Server.Stop] closes the three backends and waits on
    the server's WaitGroup.  Each goroutine is a program counter, each
    statement a labelled step, and a run of the server is a list of
    labels: the order in which the scheduler lets the goroutines move. *)

(** The three backends; each names its stream and its loop as well:
    [handleRXPackets], [handleTXPayloads], [handleTXMACPayloads]. *)
Inductive Backend : Type :=
| GatewayBackend
| ApplicationBackend
| ControllerBackend.

#[global] Instance Backend_eq_dec : EqDecision Backend.
Proof. solve_decision. Defined.

(** What a loop hands to the goroutine it spawns. *)
Inductive Job : Type :=
| JobRX (rxPacket : RXPacket)
| JobTX (txPayload : TXPayload)
| JobTXMAC (txMACPayload : MACPayload).

Definition job_backend (j : Job) : Backend :=
  match j with
  | JobRX _ => GatewayBackend
  | JobTX _ => ApplicationBackend
  | JobTXMAC _ => ControllerBackend
  end.

(** The lines written through logrus. *)
Inductive LogEntry : Type :=
| LogRXPacketError (rxPacket : RXPacket) (err : Error)
    (* "processing rx packet error: %s" *)
| LogTXPayloadError (txPayload : TXPayload) (err : Error)
    (* "add tx-payload to queue error: %s" *)
| LogTXMACPayloadError (txMACPayload : MACPayload) (err : Error)
    (* "add tx mac-payload to queue error: %s" *)
| LogWaiting.
    (* "waiting for pending actions to complete" *)

(** The channel of a backend: the items produced and not yet received,
    and whether the channel has been closed. *)
Record Chan (A : Type) : Type := mkChan {
  chan_items : list A;
  chan_closed : bool
}.
Arguments mkChan {A} _ _.
Arguments chan_items {A} _.
Arguments chan_closed {A} _.

(** The goroutine of a [go func() { s.wg.Add(1); defer s.wg.Done();
    handle...(s.ctx) }()] of [Start]. *)
Inductive LoopPC : Type :=
| LoopNotSpawned    (* Start has not run *)
| LoopSpawned       (* next: s.wg.Add(1) *)
| LoopRange         (* in for ... range *)
| LoopWait          (* next: wg.Wait() *)
| LoopDeferred      (* next: the deferred s.wg.Done() *)
| LoopExited.

(** The goroutine of a [go func(x) { wg.Add(1); defer wg.Done(); ... }(x)]
    of a loop. *)
Inductive WorkerPC : Type :=
| WorkerSpawned     (* next: wg.Add(1) *)
| WorkerProcess     (* next: process the item, log an error *)
| WorkerDeferred    (* next: the deferred wg.Done() *)
| WorkerExited.

Record Worker : Type := mkWorker {
  w_loop : Backend;
  w_job : Job;
  w_pc : WorkerPC
}.

Inductive StopPC : Type :=
| StopIdle                      (* Stop has not been called *)
| StopCloseGateway              (* next: s.ctx.Gateway.Close() *)
| StopCloseApplication          (* next: s.ctx.Application.Close() *)
| StopCloseController           (* next: s.ctx.Controller.Close() *)
| StopWait                      (* next: s.wg.Wait() *)
| StopReturned (r : option Error).

#[global] Instance LoopPC_eq_dec : EqDecision LoopPC.
Proof. solve_decision. Defined.
#[global] Instance WorkerPC_eq_dec : EqDecision WorkerPC.
Proof. solve_decision. Defined.
#[global] Instance StopPC_eq_dec : EqDecision StopPC.
Proof. solve_decision. Defined.

Record Server `{Storage} : Type := mkServer {
  srv_ctx : Context;
  srv_rxChan : Chan RXPacket;          (* ctx.Gateway.RXPacketChan() *)
  srv_txChan : Chan TXPayload;         (* ctx.Application.TXPayloadChan() *)
  srv_txMACChan : Chan MACPayload;     (* ctx.Controller.TXMACPayloadChan() *)
  srv_wg : nat;                        (* s.wg *)
  srv_loop : Backend -> LoopPC;
  srv_loop_wg : Backend -> nat;        (* the wg of each loop *)
  srv_workers : list Worker;
  srv_stop : StopPC;
  srv_log : list LogEntry
}.

(** The scheduler's choices. *)
Inductive Label : Type :=
| LStart                       (* Start: the three go statements *)
| LProduce (j : Job)           (* a backend sends an item on its channel *)
| LLoopAdd (b : Backend)       (* s.wg.Add(1) *)
| LReceive (b : Backend)       (* range receives an item: go func(item) *)
| LRangeEnd (b : Backend)      (* range finds the channel closed and drained *)
| LLoopWait (b : Backend)      (* the loop's wg.Wait() returns *)
| LLoopDone (b : Backend)      (* the deferred s.wg.Done() *)
| LWorkerAdd (i : nat)         (* wg.Add(1) of worker i *)
| LWorkerRun (i : nat)         (* worker i processes its item *)
| LWorkerDone (i : nat)        (* the deferred wg.Done() of worker i *)
| LStopCall                    (* Stop is entered *)
| LClose (b : Backend) (r : option Error)   (* Stop: Close() of b returns r *)
| LStopWait.                   (* Stop: s.wg.Wait() returns, return nil *)

Section Supervisor.
Context `{Processors}.

Definition set_ctx (s : Server) (c : Context) : Server :=
  mkServer _ c (srv_rxChan s) (srv_txChan s) (srv_txMACChan s) (srv_wg s)
    (srv_loop s) (srv_loop_wg s) (srv_workers s) (srv_stop s) (srv_log s).

Definition set_rxChan (s : Server) (c : Chan RXPacket) : Server :=
  mkServer _ (srv_ctx s) c (srv_txChan s) (srv_txMACChan s) (srv_wg s)
    (srv_loop s) (srv_loop_wg s) (srv_workers s) (srv_stop s) (srv_log s).

Definition set_txChan (s : Server) (c : Chan TXPayload) : Server :=
  mkServer _ (srv_ctx s) (srv_rxChan s) c (srv_txMACChan s) (srv_wg s)
    (srv_loop s) (srv_loop_wg s) (srv_workers s) (srv_stop s) (srv_log s).

Definition set_txMACChan (s : Server) (c : Chan MACPayload) : Server :=
  mkServer _ (srv_ctx s) (srv_rxChan s) (srv_txChan s) c (srv_wg s)
    (srv_loop s) (srv_loop_wg s) (srv_workers s) (srv_stop s) (srv_log s).

Definition set_wg (s : Server) (n : nat) : Server :=
  mkServer _ (srv_ctx s) (srv_rxChan s) (srv_txChan s) (srv_txMACChan s) n
    (srv_loop s) (srv_loop_wg s) (srv_workers s) (srv_stop s) (srv_log s).

Definition set_loop (s : Server) (b : Backend) (pc : LoopPC) : Server :=
  mkServer _ (srv_ctx s) (srv_rxChan s) (srv_txChan s) (srv_txMACChan s)
    (srv_wg s) (<[b := pc]> (srv_loop s)) (srv_loop_wg s) (srv_workers s)
    (srv_stop s) (srv_log s).

Definition set_loop_wg (s : Server) (b : Backend) (n : nat) : Server :=
  mkServer _ (srv_ctx s) (srv_rxChan s) (srv_txChan s) (srv_txMACChan s)
    (srv_wg s) (srv_loop s) (<[b := n]> (srv_loop_wg s)) (srv_workers s)
    (srv_stop s) (srv_log s).

Definition set_workers (s : Server) (ws : list Worker) : Server :=
  mkServer _ (srv_ctx s) (srv_rxChan s) (srv_txChan s) (srv_txMACChan s)
    (srv_wg s) (srv_loop s) (srv_loop_wg s) ws (srv_stop s) (srv_log s).

Definition set_stop (s : Server) (pc : StopPC) : Server :=
  mkServer _ (srv_ctx s) (srv_rxChan s) (srv_txChan s) (srv_txMACChan s)
    (srv_wg s) (srv_loop s) (srv_loop_wg s) (srv_workers s) pc (srv_log s).

Definition add_log (s : Server) (e : list LogEntry) : Server :=
  mkServer _ (srv_ctx s) (srv_rxChan s) (srv_txChan s) (srv_txMACChan s)
    (srv_wg s) (srv_loop s) (srv_loop_wg s) (srv_workers s) (srv_stop s)
    (srv_log s ++ e).

(** [NewServer(ctx)]: nothing spawned, the channels open and empty. *)
Definition NewServer (ctx : Context) : Server :=
  mkServer _ ctx (mkChan [] false) (mkChan [] false) (mkChan [] false) 0%nat
    (fun _ => LoopNotSpawned) (fun _ => 0%nat) [] StopIdle [].

(** *** Channels *)

Definition is_closed (b : Backend) (s : Server) : bool :=
  match b with
  | GatewayBackend => chan_closed (srv_rxChan s)
  | ApplicationBackend => chan_closed (srv_txChan s)
  | ControllerBackend => chan_closed (srv_txMACChan s)
  end.

(** A successful [Close()] ends the stream: the channel is closed. *)
Definition close (b : Backend) (s : Server) : Server :=
  match b with
  | GatewayBackend =>
      set_rxChan s (mkChan (chan_items (srv_rxChan s)) true)
  | ApplicationBackend =>
      set_txChan s (mkChan (chan_items (srv_txChan s)) true)
  | ControllerBackend =>
      set_txMACChan s (mkChan (chan_items (srv_txMACChan s)) true)
  end.

Definition produce (j : Job) (s : Server) : Server :=
  match j with
  | JobRX p =>
      set_rxChan s (mkChan (chan_items (srv_rxChan s) ++ [p])
                      (chan_closed (srv_rxChan s)))
  | JobTX p =>
      set_txChan s (mkChan (chan_items (srv_txChan s) ++ [p])
                      (chan_closed (srv_txChan s)))
  | JobTXMAC p =>
      set_txMACChan s (mkChan (chan_items (srv_txMACChan s) ++ [p])
                         (chan_closed (srv_txMACChan s)))
  end.

(** One iteration of [for x := range ch]: the next item, if there is one. *)
Definition receive (b : Backend) (s : Server) : option (Job * Server) :=
  match b with
  | GatewayBackend =>
      match chan_items (srv_rxChan s) with
      | [] => None
      | p :: rest =>
          Some (JobRX p, set_rxChan s (mkChan rest (chan_closed (srv_rxChan s))))
      end
  | ApplicationBackend =>
      match chan_items (srv_txChan s) with
      | [] => None
      | p :: rest =>
          Some (JobTX p, set_txChan s (mkChan rest (chan_closed (srv_txChan s))))
      end
  | ControllerBackend =>
      match chan_items (srv_txMACChan s) with
      | [] => None
      | p :: rest =>
          Some (JobTXMAC p,
                set_txMACChan s (mkChan rest (chan_closed (srv_txMACChan s))))
      end
  end.

(** *** The body of a worker goroutine

    [if err := f(ctx, x); err != nil { log...Errorf(...) }]: [run_job]
    is the call, [log_entry] the line written when it fails.  The error
    goes to the log and nowhere else. *)
Definition run_job (ctx : Context) (j : Job) : Context * option Error :=
  match j with
  | JobRX rxPacket => handleRXPacket ctx rxPacket
  | JobTX txPayload =>
      match AddTXPayloadToQueue (ctx_RedisPool ctx) txPayload with
      | (pool, r) => (set_RedisPool ctx pool, r)
      end
  | JobTXMAC txMACPayload =>
      match AddMACPayloadToTXQueue (ctx_RedisPool ctx) txMACPayload with
      | (pool, r) => (set_RedisPool ctx pool, r)
      end
  end.

Definition log_entry (j : Job) (err : Error) : LogEntry :=
  match j with
  | JobRX rxPacket => LogRXPacketError rxPacket err
  | JobTX txPayload => LogTXPayloadError txPayload err
  | JobTXMAC txMACPayload => LogTXMACPayloadError txMACPayload err
  end.

Definition process (ctx : Context) (j : Job) : Context * list LogEntry :=
  match run_job ctx j with
  | (ctx', Some err) => (ctx', [log_entry j err])
  | (ctx', None) => (ctx', [])
  end.

Definition all_backends : list Backend :=
  [GatewayBackend; ApplicationBackend; ControllerBackend].

(** *** One step of one goroutine *)
Definition step (l : Label) (s : Server) : option Server :=
  match l with
  | LStart =>
      if forallb (fun b => bool_decide (srv_loop s b = LoopNotSpawned)) all_backends
      then Some (foldl (fun s b => set_loop s b LoopSpawned) s all_backends)
      else None
  | LProduce j =>
      if is_closed (job_backend j) s then None else Some (produce j s)
  | LLoopAdd b =>
      if decide (srv_loop s b = LoopSpawned)
      then Some (set_loop (set_wg s (S (srv_wg s))) b LoopRange)
      else None
  | LReceive b =>
      if decide (srv_loop s b = LoopRange) then
        match receive b s with
        | Some (j, s') =>
            Some (set_workers s' (srv_workers s' ++ [mkWorker b j WorkerSpawned]))
        | None => None
        end
      else None
  | LRangeEnd b =>
      if decide (srv_loop s b = LoopRange) then
        match receive b s with
        | Some _ => None
        | None => if is_closed b s then Some (set_loop s b LoopWait) else None
        end
      else None
  | LLoopWait b =>
      if decide (srv_loop s b = LoopWait /\ srv_loop_wg s b = 0%nat)
      then Some (set_loop s b LoopDeferred)
      else None
  | LLoopDone b =>
      if decide (srv_loop s b = LoopDeferred)
      then Some (set_loop (set_wg s (Nat.pred (srv_wg s))) b LoopExited)
      else None
  | LWorkerAdd i =>
      match srv_workers s !! i with
      | Some (mkWorker b j WorkerSpawned) =>
          Some (set_workers (set_loop_wg s b (S (srv_loop_wg s b)))
                  (<[i := mkWorker b j WorkerProcess]> (srv_workers s)))
      | _ => None
      end
  | LWorkerRun i =>
      match srv_workers s !! i with
      | Some (mkWorker b j WorkerProcess) =>
          let '(ctx', entries) := process (srv_ctx s) j in
          Some (set_workers (add_log (set_ctx s ctx') entries)
                  (<[i := mkWorker b j WorkerDeferred]> (srv_workers s)))
      | _ => None
      end
  | LWorkerDone i =>
      match srv_workers s !! i with
      | Some (mkWorker b j WorkerDeferred) =>
          Some (set_workers (set_loop_wg s b (Nat.pred (srv_loop_wg s b)))
                  (<[i := mkWorker b j WorkerExited]> (srv_workers s)))
      | _ => None
      end
  | LStopCall =>
      if decide (srv_stop s = StopIdle)
      then Some (set_stop s StopCloseGateway) else None
  | LClose GatewayBackend r =>
      if decide (srv_stop s = StopCloseGateway) then
        match r with
        | Some err => Some (set_stop s (StopReturned (Some (ErrCloseGateway err))))
        | None => Some (set_stop (close GatewayBackend s) StopCloseApplication)
        end
      else None
  | LClose ApplicationBackend r =>
      if decide (srv_stop s = StopCloseApplication) then
        match r with
        | Some err =>
            Some (set_stop s (StopReturned (Some (ErrCloseApplication err))))
        | None => Some (set_stop (close ApplicationBackend s) StopCloseController)
        end
      else None
  | LClose ControllerBackend r =>
      if decide (srv_stop s = StopCloseController) then
        match r with
        | Some err =>
            Some (set_stop s (StopReturned (Some (ErrCloseController err))))
        | None =>
            Some (set_stop (add_log (close ControllerBackend s) [LogWaiting])
                    StopWait)
        end
      else None
  | LStopWait =>
      if decide (srv_stop s = StopWait /\ srv_wg s = 0%nat)
      then Some (set_stop s (StopReturned None)) else None
  end.

(** A schedule is run label by label; it is rejected as soon as a label
    names a goroutine that cannot move. *)
Fixpoint run (ls : list Label) (s : Server) : option Server :=
  match ls with
  | [] => Some s
  | l :: ls' =>
      match step l s with
      | Some s' => run ls' s'
      | None => None
      end
  end.

(** A worker is in flight from the [go] statement that spawned it until
    its goroutine has returned. *)
Definition in_flight (w : Worker) : bool :=
  bool_decide (w_pc w <> WorkerExited).
End Supervisor.

(** What [Stop] did in a run: its own labels, in the order of the run. *)
Definition is_stop_label (l : Label) : bool :=
  match l with
  | LStopCall | LClose _ _ | LStopWait => true
  | _ => false
  end.

Definition stop_history (ls : list Label) : list Label :=
  List.filter is_stop_label ls.

(** The error [Stop] returns when [Close()] of a backend fails. *)
Definition close_error (b : Backend) (cause : Error) : Error :=
  match b with
  | GatewayBackend => ErrCloseGateway cause
  | ApplicationBackend => ErrCloseApplication cause
  | ControllerBackend => ErrCloseController cause
  end.

(** The backends [Stop] closes before it comes to [b]. *)
Definition closed_before (b : Backend) : list Backend :=
  match b with
  | GatewayBackend => []
  | ApplicationBackend => [GatewayBackend]
  | ControllerBackend => [GatewayBackend; ApplicationBackend]
  end.

(** A run in which every loop registers with the server's WaitGroup, one
    payload arrives from the application backend and is handed to a new
    goroutine, and [Stop] is then called and runs to its end while that
    goroutine has not been scheduled yet. *)
Definition early_return_schedule (p : TXPayload) : list Label :=
  [ LStart;
    LLoopAdd GatewayBackend; LLoopAdd ApplicationBackend;
    LLoopAdd ControllerBackend;
    LProduce (JobTX p); LReceive ApplicationBackend;
    LStopCall;
    LClose GatewayBackend None; LClose ApplicationBackend None;
    LClose ControllerBackend None;
    LRangeEnd GatewayBackend; LRangeEnd ApplicationBackend;
    LRangeEnd ControllerBackend;
    LLoopWait GatewayBackend; LLoopWait ApplicationBackend;
    LLoopWait ControllerBackend;
    LLoopDone GatewayBackend; LLoopDone ApplicationBackend;
    LLoopDone ControllerBackend;
    LStopWait ].

(** The labels of a [Stop] that has closed the backends [bs] one after
    the other. *)
Definition stop_prefix (bs : list Backend) : list Label :=
  LStopCall :: map (fun b => LClose b None) bs.

Section StopInvariant.
Context `{Storage}.

(** The closed channels are those of [bs] and no other. *)
Definition closed_exactly (bs : list Backend) (s : Server) : Prop :=
  forall b, is_closed b s = bool_decide (b ∈ bs).

(** Where [Stop] stands determines what it has done and which channels
    are closed. *)
Definition stop_inv (h : list Label) (s : Server) : Prop :=
  match srv_stop s with
  | StopIdle => h = [] /\ closed_exactly [] s
  | StopCloseGateway =>
      h = stop_prefix [] /\ closed_exactly [] s
  | StopCloseApplication =>
      h = stop_prefix [GatewayBackend] /\ closed_exactly [GatewayBackend] s
  | StopCloseController =>
      h = stop_prefix [GatewayBackend; ApplicationBackend]
      /\ closed_exactly [GatewayBackend; ApplicationBackend] s
  | StopWait =>
      h = stop_prefix all_backends /\ closed_exactly all_backends s
  | StopReturned None =>
      h = stop_prefix all_backends ++ [LStopWait]
      /\ closed_exactly all_backends s
  | StopReturned (Some err) =>
      exists b cause,
        err = close_error b cause
        /\ h = stop_prefix (closed_before b) ++ [LClose b (Some cause)]
        /\ closed_exactly (closed_before b) s
  end.
End StopInvariant.

(** ** node.go: the other methods of the node API

    [Create], [Get], [List], [ListByAppEUI], [Delete] and [returnList].
    They call two more methods of the lorawan package and six more
    storage functions; as before these are class methods. *)

Class LorawanText : Type := {
  EUI64_MarshalText : EUI64 -> Error + string;
  AES128Key_MarshalText : AES128Key -> Error + string
}.

(** The functions that return [(int, error)] keep both components: [List]
    reads the count and drops the error. *)
Class NodeStorage `{Storage} : Type := {
  CreateNode : DBT -> Node -> DBT * option Error;
  DeleteNode : DBT -> EUI64 -> DBT * option Error;
  GetNodes : DBT -> Z -> Z -> Error + list Node;                 (* limit, offset *)
  GetNodesCount : DBT -> Z * option Error;
  GetNodesForAppEUI : DBT -> EUI64 -> Z -> Z -> Error + list Node;
  GetNodesForAppEUICount : DBT -> EUI64 -> Z * option Error
}.

Record CreateNodeRequest : Type := mkCreateNodeRequest {
  creq_DevEUI : string;
  creq_AppEUI : string;
  creq_AppKey : string;
  creq_RxDelay : Z;          (* uint32 *)
  creq_Rx1DROffset : Z;      (* uint32 *)
  creq_ChannelListID : Z     (* int64 *)
}.

Record GetNodeRequest : Type := mkGetNodeRequest {
  greq_DevEUI : string
}.

Record GetNodeResponse : Type := mkGetNodeResponse {
  resp_DevEUI : string;
  resp_AppEUI : string;
  resp_AppKey : string;
  resp_RxDelay : Z;          (* uint32 *)
  resp_Rx1DROffset : Z;      (* uint32 *)
  resp_ChannelListID : Z     (* int64, zero when the node has none *)
}.

Record ListNodeRequest : Type := mkListNodeRequest {
  lreq_Limit : Z;
  lreq_Offset : Z
}.

Record ListNodeByAppEUIRequest : Type := mkListNodeByAppEUIRequest {
  lareq_AppEUI : string;
  lareq_Limit : Z;
  lareq_Offset : Z
}.

Record ListNodeResponse : Type := mkListNodeResponse {
  lresp_TotalCount : Z;      (* int64 *)
  lresp_Result : list GetNodeResponse
}.

Record DeleteNodeRequest : Type := mkDeleteNodeRequest {
  dreq_DevEUI : string
}.

Section NodeAPIMore.
Context `{Lorawan} `{LorawanText} `{NodeStorage}.

Definition NodeAPI_Create (ctx : Context) (req : CreateNodeRequest)
  : Context * (Error + unit) :=
  match EUI64_UnmarshalText (creq_AppEUI req) with
  | inl err => (ctx, inl err)
  | inr appEUI =>
  match EUI64_UnmarshalText (creq_DevEUI req) with
  | inl err => (ctx, inl err)
  | inr devEUI =>
  match AES128Key_UnmarshalText (creq_AppKey req) with
  | inl err => (ctx, inl err)
  | inr appKey =>
      let node :=
        mkNode devEUI appEUI appKey
          (uint8 (creq_RxDelay req)) (uint8 (creq_Rx1DROffset req))
          (if decide (creq_ChannelListID req > 0)
           then Some (creq_ChannelListID req) else None) in
      match CreateNode (ctx_DB ctx) node with
      | (db, Some err) => (set_DB ctx db, inl err)
      | (db, None) => (set_DB ctx db, inr tt)
      end
  end end end.

(** [Get] reads and does not touch the context.  The identities and the
    key are marshalled in the order DevEUI, AppEUI, AppKey. *)
Definition NodeAPI_Get (ctx : Context) (req : GetNodeRequest)
  : Error + GetNodeResponse :=
  match EUI64_UnmarshalText (greq_DevEUI req) with
  | inl err => inl err
  | inr eui =>
  match GetNode (ctx_DB ctx) eui with
  | inl err => inl err
  | inr node =>
  match EUI64_MarshalText (node_DevEUI node) with
  | inl err => inl err
  | inr devEUI =>
  match EUI64_MarshalText (node_AppEUI node) with
  | inl err => inl err
  | inr appEUI =>
  match AES128Key_MarshalText (node_AppKey node) with
  | inl err => inl err
  | inr appKey =>
      inr (mkGetNodeResponse devEUI appEUI appKey
             (node_RXDelay node) (node_RX1DROffset node)
             (match node_ChannelListID node with
              | Some id => id
              | None => 0
              end))
  end end end end end.

(** The body of the loop of [returnList]: the item of one node.  Here
    the order is AppEUI, DevEUI, AppKey. *)
Definition returnList_item (node : Node) : Error + GetNodeResponse :=
  match EUI64_MarshalText (node_AppEUI node) with
  | inl err => inl err
  | inr appEUI =>
  match EUI64_MarshalText (node_DevEUI node) with
  | inl err => inl err
  | inr devEUI =>
  match AES128Key_MarshalText (node_AppKey node) with
  | inl err => inl err
  | inr appKey =>
      inr (mkGetNodeResponse devEUI appEUI appKey
             (node_RXDelay node) (node_RX1DROffset node)
             (match node_ChannelListID node with
              | Some id => id
              | None => 0
              end))
  end end end.

(** [for _, node := range nodes { ...; resp.Result = append(resp.Result,
    &item) }], with the [return nil, err] of the body. *)
Fixpoint returnList_loop (nodes : list Node) (result : list GetNodeResponse)
  : Error + list GetNodeResponse :=
  match nodes with
  | [] => inr result
  | node :: rest =>
      match returnList_item node with
      | inl err => inl err
      | inr item => returnList_loop rest (result ++ [item])
      end
  end.

Definition NodeAPI_returnList (count : Z) (nodes : list Node)
  : Error + ListNodeResponse :=
  match returnList_loop nodes [] with
  | inl err => inl err
  | inr result => inr (mkListNodeResponse count result)
  end.

(** [count, err := storage.GetNodesCount(a.ctx.DB)] is followed by the
    [return]: the error of the count is not looked at. *)
Definition NodeAPI_List (ctx : Context) (req : ListNodeRequest)
  : Error + ListNodeResponse :=
  match GetNodes (ctx_DB ctx) (lreq_Limit req) (lreq_Offset req) with
  | inl err => inl err
  | inr nodes =>
      let '(count, _) := GetNodesCount (ctx_DB ctx) in
      NodeAPI_returnList count nodes
  end.

Definition NodeAPI_ListByAppEUI (ctx : Context) (req : ListNodeByAppEUIRequest)
  : Error + ListNodeResponse :=
  match EUI64_UnmarshalText (lareq_AppEUI req) with
  | inl err => inl err
  | inr eui =>
  match GetNodesForAppEUI (ctx_DB ctx) eui (lareq_Limit req) (lareq_Offset req) with
  | inl err => inl err
  | inr nodes =>
      match GetNodesForAppEUICount (ctx_DB ctx) eui with
      | (_, Some err) => inl err
      | (count, None) => NodeAPI_returnList count nodes
      end
  end end.

Definition NodeAPI_Delete (ctx : Context) (req : DeleteNodeRequest)
  : Context * (Error + unit) :=
  match EUI64_UnmarshalText (dreq_DevEUI req) with
  | inl err => (ctx, inl err)
  | inr eui =>
      match DeleteNode (ctx_DB ctx) eui with
      | (db, Some err) => (set_DB ctx db, inl err)
      | (db, None) => (set_DB ctx db, inr tt)
      end
  end.
End NodeAPIMore.

(** ** loraserver.go: what the WaitGroups count, and where the items are *)

(** A loop goroutine is registered with the server's WaitGroup from its
    [s.wg.Add(1)] to its deferred [s.wg.Done()]. *)
Definition loop_registered (pc : LoopPC) : bool :=
  match pc with
  | LoopRange | LoopWait | LoopDeferred => true
  | LoopNotSpawned | LoopSpawned | LoopExited => false
  end.

(** A worker goroutine is registered with the WaitGroup of its loop from
    its [wg.Add(1)] to its deferred [wg.Done()]. *)
Definition worker_registered (pc : WorkerPC) : bool :=
  match pc with
  | WorkerProcess | WorkerDeferred => true
  | WorkerSpawned | WorkerExited => false
  end.

(** A loop has ended when it has left its [for ... range]. *)
Definition loop_ended (pc : LoopPC) : bool :=
  match pc with
  | LoopWait | LoopDeferred | LoopExited => true
  | LoopNotSpawned | LoopSpawned | LoopRange => false
  end.

(** The items the backend [b] has sent in a run, in the order sent. *)
Definition produced (b : Backend) (ls : list Label) : list Job :=
  flat_map (fun l => match l with
                     | LProduce j => if decide (job_backend j = b) then [j] else []
                     | _ => []
                     end) ls.

Section Accounting.
Context `{Storage}.

Definition registered_loops (s : Server) : nat :=
  length (List.filter (fun b => loop_registered (srv_loop s b)) all_backends).

Definition of_loop (b : Backend) (w : Worker) : bool :=
  bool_decide (w_loop w = b).

Definition registered_workers (b : Backend) (s : Server) : nat :=
  length (List.filter (fun w => of_loop b w && worker_registered (w_pc w))
            (srv_workers s)).

(** Each WaitGroup counts the goroutines registered with it. *)
Definition wg_inv (s : Server) : Prop :=
  srv_wg s = registered_loops s
  /\ forall b, srv_loop_wg s b = registered_workers b s.

(** The items waiting on the channel of [b]. *)
Definition pending (b : Backend) (s : Server) : list Job :=
  match b with
  | GatewayBackend => map JobRX (chan_items (srv_rxChan s))
  | ApplicationBackend => map JobTX (chan_items (srv_txChan s))
  | ControllerBackend => map JobTXMAC (chan_items (srv_txMACChan s))
  end.

(** The items the loop of [b] has handed to a goroutine, in the order of
    the [go] statements. *)
Definition spawned (b : Backend) (s : Server) : list Job :=
  map w_job (List.filter (of_loop b) (srv_workers s)).

(** Every item sent is on its channel or with a goroutine of its loop,
    in the order sent. *)
Definition items_inv (ls : list Label) (s : Server) : Prop :=
  forall b, spawned b s ++ pending b s = produced b ls.

(** A loop that has left its range has found its channel closed and
    drained. *)
Definition ended_inv (s : Server) : Prop :=
  forall b, loop_ended (srv_loop s b) = true ->
            is_closed b s = true /\ pending b s = [].
End Accounting.

(** How often the goroutine of index [i] made its processing call in a
    run. *)
Definition runs_of (i : nat) (ls : list Label) : nat :=
  length (List.filter (fun l => match l with
                                | LWorkerRun k => Nat.eqb k i
                                | _ => false
                                end) ls).

(** A worker goroutine is past its processing call. *)
Definition worker_processed (pc : WorkerPC) : bool :=
  match pc with
  | WorkerDeferred | WorkerExited => true
  | WorkerSpawned | WorkerProcess => false
  end.

Section Processing.
Context `{Storage}.

Definition processed_count (i : nat) (s : Server) : nat :=
  match srv_workers s !! i with
  | Some w => if worker_processed (w_pc w) then 1%nat else 0%nat
  | None => 0%nat
  end.

Definition runs_inv (ls : list Label) (s : Server) : Prop :=
  forall i, runs_of i ls = processed_count i s.
End Processing.

(** ** The stores, after the specification

    The storage functions are not part of the two files.  The states and
    operations below follow the contracts of the Session Store and the
    Queue Store and the description of the device registry; expiry of a
    session after its TTL needs a clock and is left out, and no operation
    fails for a reason of I/O. *)

(** Modelled from the spec: the device registry, a lookup by identity of
    Node and of Application records. *)
Record SpecDB : Type := mkSpecDB {
  db_nodes : gmap Z Node;                 (* by device identity *)
  db_applications : gmap Z Application    (* by application identity *)
}.

(** Modelled from the spec: the persisted state of the Session Store and
    of the Queue Store.  Sessions are keyed by dynamic address with a
    secondary index by device identity; the two queues are keyed by
    device identity and keep their entries in insertion order. *)
Record SpecRedis : Type := mkSpecRedis {
  redis_sessions : gmap Z NodeSession;    (* by dynamic address *)
  redis_devAddr : gmap Z Z;               (* device identity to address *)
  redis_txQueue : gmap Z (list TXPayload);
  redis_macQueue : gmap Z (list MACPayload);
  redis_ackOwed : gset Z                  (* addresses owed an acknowledgment *)
}.

(** Modelled from the spec: [storage.GetNode], the registry's
    lookup-by-identity for Node records. *)
Definition spec_GetNode (db : SpecDB) (devEUI : EUI64) : Error + Node :=
  match db_nodes db !! devEUI with
  | Some node => inr node
  | None => inl NotFoundError
  end.

(** Modelled from the spec: [storage.GetApplication], the registry's
    lookup-by-identity for Application records. *)
Definition spec_GetApplication (db : SpecDB) (appEUI : EUI64)
  : Error + Application :=
  match db_applications db !! appEUI with
  | Some app => inr app
  | None => inl NotFoundError
  end.

(** Modelled from the spec: [storage.UpdateNode], which replaces the
    record stored under the node's device identity; there is nothing to
    replace when the identity is unknown. *)
Definition spec_UpdateNode (db : SpecDB) (node : Node) : SpecDB * option Error :=
  match db_nodes db !! node_DevEUI node with
  | Some _ =>
      (mkSpecDB (<[node_DevEUI node := node]> (db_nodes db)) (db_applications db),
       None)
  | None => (db, Some NotFoundError)
  end.

(** Modelled from the spec: [get(address) -> NodeSession | NotFound]. *)
Definition spec_GetNodeSession (pool : SpecRedis) (devAddr : DevAddr)
  : Error + NodeSession :=
  match redis_sessions pool !! devAddr with
  | Some ns => inr ns
  | None => inl NotFoundError
  end.

(** Modelled from the spec: [getByDeviceIdentity(id)], through the
    secondary index. *)
Definition spec_GetNodeSessionByDevEUI (pool : SpecRedis) (devEUI : EUI64)
  : Error + NodeSession :=
  match redis_devAddr pool !! devEUI with
  | Some devAddr => spec_GetNodeSession pool devAddr
  | None => inl NotFoundError
  end.

(** Modelled from the spec: [save(session)], an upsert under the
    session's address that keeps the secondary index in step. *)
Definition spec_SaveNodeSession (pool : SpecRedis) (ns : NodeSession)
  : SpecRedis * option Error :=
  (mkSpecRedis (<[ns_DevAddr ns := ns]> (redis_sessions pool))
     (<[ns_DevEUI ns := ns_DevAddr ns]> (redis_devAddr pool))
     (redis_txQueue pool) (redis_macQueue pool) (redis_ackOwed pool),
   None).

(** Modelled from the spec: the store's part of [create(session)].  The
    check of the network identifier is in [API.CreateNodeSession], which
    alone knows the configured NetID; the store persists the session. *)
Definition spec_CreateNodeSession (pool : SpecRedis) (ns : NodeSession)
  : SpecRedis * option Error :=
  spec_SaveNodeSession pool ns.

(** Modelled from the spec: [delete(address)]. *)
Definition spec_DeleteNodeSession (pool : SpecRedis) (devAddr : DevAddr)
  : SpecRedis :=
  mkSpecRedis (delete devAddr (redis_sessions pool))
    (filter (fun kv => kv.2 <> devAddr) (redis_devAddr pool))
    (redis_txQueue pool) (redis_macQueue pool) (redis_ackOwed pool).

(** Modelled from the spec: the queue of a device, in insertion order;
    a device with no entry has an empty queue. *)
Definition spec_GetTXPayloadQueue (pool : SpecRedis) (devEUI : EUI64)
  : Error + list TXPayload :=
  inr (default [] (redis_txQueue pool !! devEUI)).

(** Modelled from the spec: [enqueue(deviceIdentity, payload)] appends. *)
Definition spec_AddTXPayloadToQueue (pool : SpecRedis) (p : TXPayload)
  : SpecRedis * option Error :=
  (mkSpecRedis (redis_sessions pool) (redis_devAddr pool)
     (<[tx_DevEUI p := default [] (redis_txQueue pool !! tx_DevEUI p) ++ [p]]>
        (redis_txQueue pool))
     (redis_macQueue pool) (redis_ackOwed pool),
   None).

(** Modelled from the spec: [enqueue] on the queue of MAC commands, which
    is independent of the queue of application payloads. *)
Definition spec_AddMACPayloadToTXQueue (pool : SpecRedis) (p : MACPayload)
  : SpecRedis * option Error :=
  (mkSpecRedis (redis_sessions pool) (redis_devAddr pool) (redis_txQueue pool)
     (<[mac_DevEUI p := default [] (redis_macQueue pool !! mac_DevEUI p) ++ [p]]>
        (redis_macQueue pool))
     (redis_ackOwed pool),
   None).

(** Modelled from the spec: [storage.FlushTXPayloadQueue],
    [flush(deviceIdentity)] clears all pending entries for the device. *)
Definition spec_FlushTXPayloadQueue (pool : SpecRedis) (devEUI : EUI64)
  : SpecRedis * option Error :=
  (mkSpecRedis (redis_sessions pool) (redis_devAddr pool)
     (delete devEUI (redis_txQueue pool))
     (redis_macQueue pool) (redis_ackOwed pool),
   None).

#[global] Instance SpecStorage : Storage := {|
  DBT := SpecDB;
  RedisT := SpecRedis;
  GetNode := spec_GetNode;
  GetApplication := spec_GetApplication;
  UpdateNode := spec_UpdateNode;
  GetNodeSession := spec_GetNodeSession;
  CreateNodeSession := spec_CreateNodeSession;
  SaveNodeSession := spec_SaveNodeSession;
  GetTXPayloadQueue := spec_GetTXPayloadQueue;
  FlushTXPayloadQueue := spec_FlushTXPayloadQueue;
  AddTXPayloadToQueue := spec_AddTXPayloadToQueue;
  AddMACPayloadToTXQueue := spec_AddMACPayloadToTXQueue
|}.

(** ** The packet processors, after the specification

    [validateAndCollectJoinRequestPacket] and
    [validateAndCollectDataUpRXPacket] are called by the dispatcher and
    defined elsewhere in the repository.  The two functions below follow
    the numbered steps of the Join Processor and of the Data-Uplink
    Processor.  The frame codec is a collaborator. *)

Class Codec : Type := {
  (* the message-integrity code of the frame verifies under the key *)
  ValidateMIC : PHYPayload -> AES128Key -> bool;
  (* decryption of an application payload: key, address, counter, data *)
  DecryptFRMPayload : AES128Key -> DevAddr -> Z -> list byte -> list byte;
  (* key derivation from the root key and the nonce of the request *)
  deriveNwkSKey : AES128Key -> Z -> AES128Key;
  deriveAppSKey : AES128Key -> Z -> AES128Key;
  (* the n-th draw of an address whose NwkID bits are those of the NetID *)
  drawDevAddr : NetID -> nat -> DevAddr;
  (* how many draws are made before allocation gives up *)
  drawAttempts : nat;
  (* the join-accept frame, encrypted with the root key *)
  joinAccept : AES128Key -> NetID -> DevAddr -> PHYPayload
}.

(** The specification gives uplink counters a fixed bit-width and does
    not say which; the width is a parameter. *)
Class CounterWidth : Type := {
  FCnt_bits : nat
}.

Section SpecProcessors.
Context `{Codec} `{CounterWidth}.

(** A counter as a value of the fixed width: an unsigned integer below
    [2 ^ FCnt_bits], with the wrap-around of that width. *)
Definition FCnt_wrap (fCnt : Z) : Z := fCnt mod 2 ^ Z.of_nat FCnt_bits.

(** Modelled from the spec: step 3 of the Join Processor, a draw that
    is repeated on collision with an existing session, a bounded number
    of times. *)
Fixpoint spec_GetRandomDevAddr (pool : SpecRedis) (netID : NetID)
    (attempt fuel : nat) : Error + DevAddr :=
  match fuel with
  | O => inl AllocationError
  | S fuel' =>
      let devAddr := drawDevAddr netID attempt in
      match redis_sessions pool !! devAddr with
      | None => inr devAddr
      | Some _ => spec_GetRandomDevAddr pool netID (S attempt) fuel'
      end
  end.

(** Modelled from the spec: the root key a join request is verified
    under.  The root key is a field of the Node record, so it is the key
    registered for the device the frame names; a frame that names no
    registered device has no root key. *)
Definition spec_RootKey (db : SpecDB) (devEUI : EUI64) : option AES128Key :=
  node_AppKey <$> db_nodes db !! devEUI.

(** Modelled from the spec: [validateAndCollectJoinRequestPacket], the
    Join Processor, step by step.  The integrity check comes first: a
    code that verifies under no registered root key is a mismatch.  The
    identities are resolved after it. *)
Definition spec_validateAndCollectJoinRequestPacket
    (ctx : Context) (rxPacket : RXPacket) : Context * option Error :=
  match phy_MACPayload (rxp_PHYPayload rxPacket) with
  | JoinRequestPayload appEUI devEUI devNonce =>
      (* 1. the integrity code, under the root key *)
      let verified :=
        match spec_RootKey (ctx_DB ctx) devEUI with
        | Some key => ValidateMIC (rxp_PHYPayload rxPacket) key
        | None => false
        end in
      if negb verified then (ctx, Some AuthenticationError)
      else
        (* 2. both identities are provisioned *)
        match spec_GetNode (ctx_DB ctx) devEUI with
        | inl err => (ctx, Some err)
        | inr node =>
            match spec_GetApplication (ctx_DB ctx) appEUI with
            | inl err => (ctx, Some err)
            | inr _ =>
                (* 3. a free dynamic address *)
                match spec_GetRandomDevAddr (ctx_RedisPool ctx) (ctx_NetID ctx)
                        0%nat drawAttempts with
                | inl err => (ctx, Some err)
                | inr devAddr =>
                    (* 4. the session keys *)
                    let nwkSKey := deriveNwkSKey (node_AppKey node) devNonce in
                    let appSKey := deriveAppSKey (node_AppKey node) devNonce in
                    (* 5. the session, counters at zero, in place of any
                       prior session of the device *)
                    let ns := mkNodeSession devAddr devEUI appEUI
                                appSKey nwkSKey 0 0 in
                    let pool :=
                      match spec_GetNodeSessionByDevEUI (ctx_RedisPool ctx) devEUI with
                      | inr old =>
                          spec_DeleteNodeSession (ctx_RedisPool ctx) (ns_DevAddr old)
                      | inl _ => ctx_RedisPool ctx
                      end in
                    match spec_CreateNodeSession pool ns with
                    | (pool', Some err) => (set_RedisPool ctx pool', Some err)
                    | (pool', None) =>
                        (* 6. the join-accept goes to the outbound path *)
                        let accept :=
                          mkTXPacket (joinAccept (node_AppKey node)
                                        (ctx_NetID ctx) devAddr) in
                        (set_Gateway (set_RedisPool ctx pool')
                           (ctx_Gateway ctx ++ [accept]),
                         None)
                    end
                end
            end
        end
  | _ => (ctx, Some (ErrText "expected a join-request payload"))
  end.

Definition set_ackOwed (pool : SpecRedis) (devAddr : DevAddr) : SpecRedis :=
  mkSpecRedis (redis_sessions pool) (redis_devAddr pool) (redis_txQueue pool)
    (redis_macQueue pool) ({[devAddr]} ∪ redis_ackOwed pool).

(** The session as it goes back to the store: under the address it was
    read from, with a new uplink counter and every other field as it
    was. *)
Definition set_FCntUp (ns : NodeSession) (devAddr : DevAddr) (fCnt : Z)
  : NodeSession :=
  mkNodeSession devAddr (ns_DevEUI ns) (ns_AppEUI ns)
    (ns_AppSKey ns) (ns_NwkSKey ns) fCnt (ns_FCntDown ns).

(** Modelled from the spec: [validateAndCollectDataUpRXPacket], the
    Data-Uplink Processor, step by step.  Counters are unsigned integers
    of the fixed width: the counter of the frame and the stored counter
    are read as values of that width and compared as such.  The policy
    on wrap-around is the strict comparison itself: a counter that has
    wrapped around to a value that is not above the stored one is a
    replay, so after the largest counter no frame is accepted before a
    new activation. *)
Definition spec_validateAndCollectDataUpRXPacket
    (ctx : Context) (rxPacket : RXPacket) : Context * option Error :=
  match phy_MACPayload (rxp_PHYPayload rxPacket) with
  | DataPayload devAddr fCnt fOpts macCommands frmPayload =>
      (* 1. the session of the frame's address *)
      match spec_GetNodeSession (ctx_RedisPool ctx) devAddr with
      | inl _ => (ctx, Some SessionNotFoundError)
      | inr ns =>
          (* 2. the integrity code, under the network session key *)
          if negb (ValidateMIC (rxp_PHYPayload rxPacket) (ns_NwkSKey ns))
          then (ctx, Some AuthenticationError)
          (* 3. the counter must be strictly above the stored one *)
          else if decide (FCnt_wrap fCnt <= FCnt_wrap (ns_FCntUp ns))
          then (ctx, Some ReplayError)
          else
            (* 4. the application payload, decrypted, to the application *)
            let toApplication :=
              match frmPayload with
              | Some data =>
                  [mkRXPayload (ns_DevEUI ns) (ns_AppEUI ns)
                     (DecryptFRMPayload (ns_AppSKey ns) devAddr
                        (FCnt_wrap fCnt) data)]
              | None => []
              end in
            (* 5. the MAC commands to the network controller *)
            let toController :=
              map (fun cmd => mkMACPayload (ns_DevEUI ns) "" cmd)
                (fOpts ++ macCommands) in
            (* 6. the session goes back with its new counter *)
            match spec_SaveNodeSession (ctx_RedisPool ctx)
                    (set_FCntUp ns devAddr (FCnt_wrap fCnt)) with
            | (pool, Some err) => (set_RedisPool ctx pool, Some err)
            | (pool, None) =>
                (* 7. a confirmed uplink is owed an acknowledgment *)
                let pool :=
                  if decide (MHDR_MType (rxp_PHYPayload rxPacket) = ConfirmedDataUp)
                  then set_ackOwed pool devAddr else pool in
                (set_Controller
                   (set_Application (set_RedisPool ctx pool)
                      (ctx_Application ctx ++ toApplication))
                   (ctx_Controller ctx ++ toController),
                 None)
            end
      end
  | _ => (ctx, Some (ErrText "expected a data payload"))
  end.

#[global] Instance SpecProcessors : Processors := {|
  validateAndCollectJoinRequestPacket := spec_validateAndCollectJoinRequestPacket;
  validateAndCollectDataUpRXPacket := spec_validateAndCollectDataUpRXPacket
|}.
End SpecProcessors.

(** ** Implementations for evaluation

    To run the functions above on concrete requests and frames, the
    collaborators need implementations.  [HexLorawan] reads identities
    and keys as hexadecimal text and takes the NwkID from the seven most
    significant bits of a DevAddr and the seven least significant bits of
    a NetID; [PlainCodec] is a codec without cryptography; [Counter32]
    gives counters 32 bits. *)

Definition hex_digit (c : Ascii.ascii) : option Z :=
  let n := Z.of_N (Ascii.N_of_ascii c) in
  if decide (48 <= n <= 57) then Some (n - 48)
  else if decide (97 <= n <= 102) then Some (n - 87)
  else if decide (65 <= n <= 70) then Some (n - 55)
  else None.

Fixpoint hex_value (text : string) (acc : Z) : option Z :=
  match text with
  | EmptyString => Some acc
  | String c rest =>
      match hex_digit c with
      | Some d => hex_value rest (16 * acc + d)
      | None => None
      end
  end.

Definition unmarshal_hex (bytes : nat) (text : string) : Error + Z :=
  if decide (String.length text = (2 * bytes)%nat) then
    match hex_value text 0 with
    | Some v => inr v
    | None => inl (ErrText "invalid hexadecimal text")
    end
  else inl (ErrText "unexpected length").

Definition HexLorawan : Lorawan := {|
  DevAddr_NwkID := fun devAddr => Z.shiftr devAddr 25;
  NetID_NwkID := fun netID => Z.land netID 127;
  EUI64_UnmarshalText := unmarshal_hex 8;
  AES128Key_UnmarshalText := unmarshal_hex 16
|}.

Definition PlainCodec : Codec := {|
  ValidateMIC := fun phy key => bool_decide (phy_MIC phy = key mod 2 ^ 32);
  DecryptFRMPayload := fun key _ _ data => map (fun b => Z.lxor b (key mod 256)) data;
  deriveNwkSKey := fun key nonce => (2 * (key + nonce)) mod 2 ^ 128;
  deriveAppSKey := fun key nonce => (2 * (key + nonce) + 1) mod 2 ^ 128;
  drawDevAddr := fun netID n =>
    Z.lor (Z.shiftl (Z.land netID 127) 25) (Z.of_nat n);
  drawAttempts := 8%nat;
  joinAccept := fun key netID devAddr =>
    mkPHYPayload JoinAccept (OpaquePayload [netID; devAddr]) (key mod 2 ^ 32)
|}.

(** Counters of 32 bits. *)
Definition Counter32 : CounterWidth := {| FCnt_bits := 32 |}.

(** A network with one provisioned device, its application, one session
    and one queued payload.  The NetID 66051 (010203 in hexadecimal) has
    NwkID 3, and so has the address 100663297 (06000001). *)

Definition example_node : Node := mkNode 258 513 43 1 0 None.

Definition example_session : NodeSession :=
  mkNodeSession 100663297 258 513 11 7 5 0.

Definition example_payload : TXPayload := mkTXPayload 258 "ref-1" [1; 2; 3].

Definition example_db : SpecDB :=
  mkSpecDB {[ 258 := example_node ]} {[ 513 := mkApplication 513 "meters" ]}.

Definition example_redis : SpecRedis :=
  mkSpecRedis {[ 100663297 := example_session ]} {[ 258 := 100663297 ]}
    {[ 258 := [example_payload] ]} ∅ ∅.

Definition example_ctx : @Context SpecStorage :=
  mkContext SpecStorage example_db example_redis 66051 [] [] [].

(** A data-up frame for the session of the example. *)
Definition example_dataUp (m : MType) (fCnt mic : Z) : RXPacket :=
  mkRXPacket (mkRXInfo 1 0 (-60))
    (mkPHYPayload m (DataPayload 100663297 fCnt [] [] (Some [9; 8])) mic).

(** A join request for the device of the example. *)
Definition example_join (mic : Z) : RXPacket :=
  mkRXPacket (mkRXInfo 1 0 (-60))
    (mkPHYPayload JoinRequest (JoinRequestPayload 513 258 77) mic).


(** A request that moves the device of the example to new settings. *)
Definition example_update : UpdateNodeRequest :=
  mkUpdateNodeRequest "0000000000000102" "0000000000000201"
    "0000000000000000000000000000002b" 300 2 7.

(** A server at work on the network of the example: the three loops are
    in their range, a second frame waits on the gateway channel, and the
    goroutine of a first frame, of a message type the dispatcher does not
    know, is about to process it. *)
Definition example_server : @Server SpecStorage :=
  mkServer SpecStorage example_ctx
    (mkChan [example_dataUp UnconfirmedDataUp 6 7] false)
    (mkChan [] false) (mkChan [] false) 3%nat
    (fun _ => LoopRange)
    (fun b => if decide (b = GatewayBackend) then 1%nat else 0%nat)
    [mkWorker GatewayBackend (JobRX (example_dataUp Proprietary 6 7))
       WorkerProcess]
    StopIdle [].

(** The same request for a device identity (999, 3e7 in hexadecimal) the
    registry does not know. *)
Definition example_update_unknown : UpdateNodeRequest :=
  mkUpdateNodeRequest "00000000000003e7" "0000000000000201"
    "0000000000000000000000000000002b" 300 2 7.

(** ** More implementations for evaluation

    [HexLorawanText] writes identities and keys as hexadecimal text of
    their full width.  [RegistryStorage] keeps the nodes in the registry
    of the stores above; [NoCountStorage] is the same registry with count
    queries that fail. *)

Definition hex_char (d : Z) : Ascii.ascii :=
  match String.get (Z.to_nat d) "0123456789abcdef" with
  | Some c => c
  | None => Ascii.ascii_of_nat 48
  end.

Fixpoint hex_text (digits : nat) (v : Z) : string :=
  match digits with
  | O => EmptyString
  | S n => String.append (hex_text n (v / 16)) (String (hex_char (v mod 16)) EmptyString)
  end.

Definition HexLorawanText : LorawanText := {|
  EUI64_MarshalText := fun e => inr (hex_text 16 e);
  AES128Key_MarshalText := fun k => inr (hex_text 32 k)
|}.

Definition registry_CreateNode (db : SpecDB) (node : Node) : SpecDB * option Error :=
  match db_nodes db !! node_DevEUI node with
  | Some _ => (db, Some (ErrIO "duplicate key"))
  | None =>
      (mkSpecDB (<[node_DevEUI node := node]> (db_nodes db)) (db_applications db),
       None)
  end.

Definition registry_DeleteNode (db : SpecDB) (devEUI : EUI64)
  : SpecDB * option Error :=
  match db_nodes db !! devEUI with
  | Some _ => (mkSpecDB (delete devEUI (db_nodes db)) (db_applications db), None)
  | None => (db, Some NotFoundError)
  end.

Definition page (limit offset : Z) (nodes : list Node) : list Node :=
  take (Z.to_nat limit) (drop (Z.to_nat offset) nodes).

Definition registry_nodes (db : SpecDB) : list Node :=
  (map_to_list (db_nodes db)).*2.

Definition registry_nodes_of (db : SpecDB) (appEUI : EUI64) : list Node :=
  List.filter (fun node => bool_decide (node_AppEUI node = appEUI))
    (registry_nodes db).

Definition RegistryStorage : @NodeStorage SpecStorage := {|
  CreateNode := registry_CreateNode;
  DeleteNode := registry_DeleteNode;
  GetNodes := fun db limit offset => inr (page limit offset (registry_nodes db));
  GetNodesCount := fun db => (Z.of_nat (length (registry_nodes db)), None);
  GetNodesForAppEUI := fun db appEUI limit offset =>
    inr (page limit offset (registry_nodes_of db appEUI));
  GetNodesForAppEUICount := fun db appEUI =>
    (Z.of_nat (length (registry_nodes_of db appEUI)), None)
|}.

Definition NoCountStorage : @NodeStorage SpecStorage := {|
  CreateNode := registry_CreateNode;
  DeleteNode := registry_DeleteNode;
  GetNodes := fun db limit offset => inr (page limit offset (registry_nodes db));
  GetNodesCount := fun db => (0, Some (ErrIO "count failed"));
  GetNodesForAppEUI := fun db appEUI limit offset =>
    inr (page limit offset (registry_nodes_of db appEUI));
  GetNodesForAppEUICount := fun db appEUI => (0, Some (ErrIO "count failed"))
|}.

(** A creation request for a second device (259, 103 in hexadecimal),
    with a receive delay beyond a byte and no channel list. *)
Definition example_create : CreateNodeRequest :=
  mkCreateNodeRequest "0000000000000103" "0000000000000201"
    "0000000000000000000000000000002c" 257 3 (-4).

(** A second payload for the device of the example. *)
Definition example_payload2 : TXPayload := mkTXPayload 258 "ref-2" [4].

(** A store that is nothing but the two queues, in arrival order, with
    processors that know no device: enough to run the supervisor. *)
Definition QueueStorage : Storage := {|
  DBT := unit;
  RedisT := list TXPayload * list MACPayload;
  GetNode := fun _ _ => inl NotFoundError;
  GetApplication := fun _ _ => inl NotFoundError;
  UpdateNode := fun db _ => (db, Some NotFoundError);
  GetNodeSession := fun _ _ => inl NotFoundError;
  CreateNodeSession := fun pool _ => (pool, Some (ErrIO "no session store"));
  SaveNodeSession := fun pool _ => (pool, Some (ErrIO "no session store"));
  GetTXPayloadQueue := fun pool devEUI =>
    inr (List.filter (fun p => bool_decide (tx_DevEUI p = devEUI)) pool.1);
  FlushTXPayloadQueue := fun pool devEUI =>
    ((List.filter (fun p => bool_decide (tx_DevEUI p <> devEUI)) pool.1, pool.2),
     None);
  AddTXPayloadToQueue := fun pool p => ((pool.1 ++ [p], pool.2), None);
  AddMACPayloadToTXQueue := fun pool p => ((pool.1, pool.2 ++ [p]), None)
|}.

Definition QueueProcessors : @Processors QueueStorage := {|
  validateAndCollectJoinRequestPacket := fun ctx _ => (ctx, Some NotFoundError);
  validateAndCollectDataUpRXPacket := fun ctx _ => (ctx, Some SessionNotFoundError)
|}.

Definition queue_ctx : @Context QueueStorage :=
  mkContext QueueStorage tt ([], []) 66051 [] [] [].

(** [StrictLorawanText] refuses to write a value that does not fit the
    width of its type. *)
Definition marshal_hex (bytes : nat) (v : Z) : Error + string :=
  if decide (0 <= v < 256 ^ Z.of_nat bytes)
  then inr (hex_text (2 * bytes) v)
  else inl (ErrText "value out of range").

Definition StrictLorawanText : LorawanText := {|
  EUI64_MarshalText := marshal_hex 8;
  AES128Key_MarshalText := marshal_hex 16
|}.

(** A node whose device identity does not fit eight bytes. *)
Definition example_bad_node : Node := mkNode (-1) 513 43 1 0 None.

(** * Properties *)

(** ** The dispatcher *)

Section DispatcherFacts.
Context `{Processors}.

(** C3.  An inbound packet whose message type is a join request is
    handed to the join processor; one whose type is unconfirmed or
    confirmed data-up is handed to the data-uplink processor; for every
    other type the dispatcher returns the unknown-message-type error
    and the context it was given, untouched. *)
Theorem handleRXPacket_dispatch (ctx : Context) (rxPacket : RXPacket) :
  let m := MHDR_MType (rxp_PHYPayload rxPacket) in
  (m = JoinRequest ->
     handleRXPacket ctx rxPacket
     = validateAndCollectJoinRequestPacket ctx rxPacket)
  /\ (m = UnconfirmedDataUp \/ m = ConfirmedDataUp ->
        handleRXPacket ctx rxPacket
        = validateAndCollectDataUpRXPacket ctx rxPacket)
  /\ (m <> JoinRequest -> m <> UnconfirmedDataUp -> m <> ConfirmedDataUp ->
        handleRXPacket ctx rxPacket = (ctx, Some (ErrUnknownMType m))).
Proof.
  unfold handleRXPacket. cbv zeta.
  destruct (MHDR_MType (rxp_PHYPayload rxPacket)); repeat split;
    solve [ reflexivity | congruence | intros [?|?]; congruence ].
Qed.
End DispatcherFacts.

(** ** Node sessions through the JSON-RPC API *)

Section APIFacts.
Context `{Lorawan} `{Storage}.

Lemma API_CreateNodeSession_rejects (ctx : Context) (ns : NodeSession) :
  DevAddr_NwkID (ns_DevAddr ns) <> NetID_NwkID (ctx_NetID ctx) ->
  API_CreateNodeSession ctx ns
  = (ctx, inl (ErrNwkID (NetID_NwkID (ctx_NetID ctx)))).
Proof.
  intros Hne. unfold API_CreateNodeSession.
  case_decide; [reflexivity | contradiction].
Qed.

(** C4.  When the NwkID of the session's DevAddr differs from the NwkID
    of the configured NetID, [API.CreateNodeSession] returns the NwkID
    error and the context is the one it was given: nothing is stored.
    Whenever it succeeds, the two NwkIDs are equal, the address
    reported is the session's, and the session was handed to the
    store. *)
Theorem API_CreateNodeSession_NwkID (ctx : Context) (ns : NodeSession) :
  (DevAddr_NwkID (ns_DevAddr ns) <> NetID_NwkID (ctx_NetID ctx) ->
     API_CreateNodeSession ctx ns
     = (ctx, inl (ErrNwkID (NetID_NwkID (ctx_NetID ctx)))))
  /\ (forall ctx' devAddr,
        API_CreateNodeSession ctx ns = (ctx', inr devAddr) ->
        DevAddr_NwkID (ns_DevAddr ns) = NetID_NwkID (ctx_NetID ctx)
        /\ devAddr = ns_DevAddr ns
        /\ CreateNodeSession (ctx_RedisPool ctx) ns = (ctx_RedisPool ctx', None)).
Proof.
  split; [apply API_CreateNodeSession_rejects |].
  unfold API_CreateNodeSession.
  - intros ctx' devAddr. case_decide as Hid; [discriminate |].
    destruct (GetNode _ _); [discriminate |].
    destruct (GetApplication _ _); [discriminate |].
    destruct (CreateNodeSession _ _) as [pool [err|]] eqn:Hcreate;
      [discriminate |].
    intros [= <- <-]. auto.
Qed.
End APIFacts.

(** ** The gRPC node API *)

Section NodeAPIFacts.
Context `{Lorawan} `{Storage}.

(** C10.  For a request whose three texts parse: when the store has no
    node to return for the device identity, [NodeAPI.Update] fails with
    the store's error and the context is unchanged; when it succeeds,
    the store was given the node it had returned with the device
    identity kept, the application identity and the root key of the
    request, the receive delay and the RX1 data-rate offset of the
    request converted to [uint8], and the channel-list reference set to
    the requested identifier when that is strictly positive and absent
    otherwise. *)
Theorem NodeAPI_Update_effect (ctx : Context) (req : UpdateNodeRequest)
    (appEUI devEUI : EUI64) (appKey : AES128Key) :
  EUI64_UnmarshalText (req_AppEUI req) = inr appEUI ->
  EUI64_UnmarshalText (req_DevEUI req) = inr devEUI ->
  AES128Key_UnmarshalText (req_AppKey req) = inr appKey ->
  (forall err, GetNode (ctx_DB ctx) devEUI = inl err ->
     NodeAPI_Update ctx req = (ctx, inl err))
  /\ (forall ctx', NodeAPI_Update ctx req = (ctx', inr tt) ->
        exists old new,
          GetNode (ctx_DB ctx) devEUI = inr old
          /\ UpdateNode (ctx_DB ctx) new = (ctx_DB ctx', None)
          /\ ctx' = set_DB ctx (ctx_DB ctx')
          /\ node_DevEUI new = node_DevEUI old
          /\ node_AppEUI new = appEUI
          /\ node_AppKey new = appKey
          /\ node_RXDelay new = req_RxDelay req mod 256
          /\ node_RX1DROffset new = req_Rx1DROffset req mod 256
          /\ (req_ChannelListID req > 0 ->
                node_ChannelListID new = Some (req_ChannelListID req))
          /\ (req_ChannelListID req <= 0 -> node_ChannelListID new = None)).
Proof.
  intros Happ Hdev Hkey. unfold NodeAPI_Update.
  rewrite Happ, Hdev, Hkey. split.
  - intros err ->. reflexivity.
  - intros ctx'. destruct (GetNode _ _) as [err|old]; [discriminate |].
    destruct (UpdateNode _ _) as [db [err|]] eqn:Hupd; [discriminate |].
    intros [= <-]. eexists old, _. split; [reflexivity |].
    split; [exact Hupd |]. simpl.
    repeat split; intros; case_decide; auto; lia.
Qed.
End NodeAPIFacts.

(** ** On the stores of the specification *)

Section SpecStoreFacts.
Context `{Lorawan}.

Lemma spec_GetNodeSession_Save (pool : SpecRedis) (ns : NodeSession) :
  spec_GetNodeSession (spec_SaveNodeSession pool ns).1 (ns_DevAddr ns) = inr ns.
Proof.
  unfold spec_GetNodeSession, spec_SaveNodeSession; simpl.
  by rewrite lookup_insert_eq.
Qed.

Lemma spec_GetTXPayloadQueue_Flush (pool : SpecRedis) (devEUI other : EUI64) :
  spec_GetTXPayloadQueue (spec_FlushTXPayloadQueue pool devEUI).1 other
  = if decide (devEUI = other) then inr []
    else spec_GetTXPayloadQueue pool other.
Proof.
  unfold spec_GetTXPayloadQueue, spec_FlushTXPayloadQueue; simpl.
  rewrite lookup_delete. by case_decide.
Qed.

(** C8.  When [NodeAPI.FlushTXPayloadQueue] succeeds, the text of the
    request was a device identity, the payload queue read for that
    identity right afterwards is empty, and the queue of every other
    device is what it was. *)
Theorem NodeAPI_FlushTXPayloadQueue_empties (ctx ctx' : @Context SpecStorage)
    (req : FlushTXPayloadQueueRequest) :
  NodeAPI_FlushTXPayloadQueue ctx req = (ctx', inr tt) ->
  exists devEUI,
    EUI64_UnmarshalText (flush_DevEUI req) = inr devEUI
    /\ GetTXPayloadQueue (ctx_RedisPool ctx') devEUI = inr []
    /\ forall other, other <> devEUI ->
         GetTXPayloadQueue (ctx_RedisPool ctx') other
         = GetTXPayloadQueue (ctx_RedisPool ctx) other.
Proof.
  unfold NodeAPI_FlushTXPayloadQueue.
  destruct (EUI64_UnmarshalText _) as [err|devEUI]; [discriminate |].
  simpl. intros [= <-]. exists devEUI. split; [reflexivity |]. simpl.
  split.
  - pose proof (spec_GetTXPayloadQueue_Flush (ctx_RedisPool ctx) devEUI devEUI) as E.
    simpl in E. rewrite E. by case_decide.
  - intros other Hne.
    pose proof (spec_GetTXPayloadQueue_Flush (ctx_RedisPool ctx) devEUI other) as E.
    simpl in E. rewrite E. case_decide; congruence.
Qed.

(** C9.  [API.UpdateNodeSession] saves whatever session it is given:
    for a session whose DevAddr carries another NwkID than the
    configured NetID, whatever the registry holds, the update succeeds
    and a read of the session's address returns that session, while
    [API.CreateNodeSession] refuses the same session and stores
    nothing. *)
Theorem API_UpdateNodeSession_unchecked (ctx : @Context SpecStorage)
    (ns : NodeSession) :
  DevAddr_NwkID (ns_DevAddr ns) <> NetID_NwkID (ctx_NetID ctx) ->
  (exists ctx',
     API_UpdateNodeSession ctx ns = (ctx', inr (ns_DevEUI ns))
     /\ API_GetNodeSession ctx' (ns_DevAddr ns) = inr ns
     /\ ctx_DB ctx' = ctx_DB ctx)
  /\ exists err, API_CreateNodeSession ctx ns = (ctx, inl err).
Proof.
  intros Hne. split.
  - eexists. split; [reflexivity |]. split; [| reflexivity].
    unfold API_GetNodeSession. simpl.
    apply (spec_GetNodeSession_Save (ctx_RedisPool ctx) ns).
  - eexists. apply API_CreateNodeSession_rejects, Hne.
Qed.
End SpecStoreFacts.

(** ** On the processors of the specification *)

Section SpecProcessorFacts.
Context `{Codec} `{CounterWidth}.







End SpecProcessorFacts.

(** ** The supervisor *)

Section SupervisorFacts.
Context `{Processors}.

(** A step of any goroutine but [Stop] leaves [Stop] and the closed
    flags of the channels alone. *)
Lemma step_other_frame (l : Label) (s s' : Server) :
  is_stop_label l = false ->
  step l s = Some s' ->
  srv_stop s' = srv_stop s /\ forall b, is_closed b s' = is_closed b s.
Proof.
  intros Hl Hstep. destruct l; try discriminate Hl; clear Hl;
    unfold step in Hstep.
  - destruct (forallb _ _); [| discriminate].
    injection Hstep as <-. split; [reflexivity | by intros []].
  - destruct (is_closed _ _); [discriminate |]. injection Hstep as <-.
    split; [by destruct j | by intros []; destruct j].
  - case_decide; [| discriminate]. injection Hstep as <-.
    split; [reflexivity | by intros []].
  - case_decide; [| discriminate].
    destruct (receive b s) as [[j s1]|] eqn:Hrecv; [| discriminate].
    injection Hstep as <-.
    assert (srv_stop s1 = srv_stop s /\ forall b, is_closed b s1 = is_closed b s)
      as [E1 E2].
    { unfold receive in Hrecv.
      destruct b;
        match type of Hrecv with
        | match ?x with _ => _ end = _ => destruct x; [discriminate |]
        end; injection Hrecv as <- <-; split; try reflexivity; by intros []. }
    split; [exact E1 | intros b'; rewrite <- E2; by destruct b'].
  - case_decide; [| discriminate].
    destruct (receive b s); [discriminate |].
    destruct (is_closed b s); [| discriminate]. injection Hstep as <-.
    split; [reflexivity | by intros []].
  - case_decide; [| discriminate]. injection Hstep as <-.
    split; [reflexivity | by intros []].
  - case_decide; [| discriminate]. injection Hstep as <-.
    split; [reflexivity | by intros []].
  - destruct (srv_workers s !! i) as [[b j []]|]; try discriminate.
    injection Hstep as <-. split; [reflexivity | by intros []].
  - destruct (srv_workers s !! i) as [[b j []]|]; try discriminate.
    destruct (process _ _). injection Hstep as <-.
    split; [reflexivity | by intros []].
  - destruct (srv_workers s !! i) as [[b j []]|]; try discriminate.
    injection Hstep as <-. split; [reflexivity | by intros []].
Qed.

Lemma closed_exactly_frame (bs : list Backend) (s s' : Server) :
  (forall b, is_closed b s' = is_closed b s) ->
  closed_exactly bs s -> closed_exactly bs s'.
Proof. intros E Hc b. rewrite E. apply Hc. Qed.

Lemma closed_exactly_close (bs : list Backend) (b : Backend) (s : Server) :
  closed_exactly bs s -> closed_exactly (bs ++ [b]) (close b s).
Proof.
  intros Hc b'. specialize (Hc b').
  destruct (decide (b' = b)) as [-> | Hne].
  - rewrite bool_decide_eq_true_2
      by (rewrite elem_of_app, list_elem_of_singleton; tauto).
    by destruct b.
  - transitivity (is_closed b' s); [by destruct b, b' |].
    rewrite Hc. apply bool_decide_ext.
    rewrite elem_of_app, list_elem_of_singleton. tauto.
Qed.

Lemma stop_inv_other (h : list Label) (s s' : Server) :
  srv_stop s' = srv_stop s ->
  (forall b, is_closed b s' = is_closed b s) ->
  stop_inv h s -> stop_inv h s'.
Proof.
  intros E1 E2. unfold stop_inv. rewrite E1.
  destruct (srv_stop s) as [| | | | |[err|]];
    try (intros [-> Hc]; split; [reflexivity |];
         by apply (closed_exactly_frame _ s)).
  intros (b & cause & -> & -> & Hc). exists b, cause.
  repeat split. by apply (closed_exactly_frame _ s).
Qed.

(** One step keeps the invariant, with the label added to the history
    when it is one of [Stop]. *)
Lemma stop_inv_step (h : list Label) (l : Label) (s s' : Server) :
  stop_inv h s -> step l s = Some s' ->
  stop_inv (h ++ stop_history [l]) s'.
Proof.
  intros Hinv Hstep. destruct (is_stop_label l) eqn:Hl.
  - unfold stop_history; simpl; rewrite Hl.
    destruct l; try discriminate Hl; clear Hl; unfold step in Hstep.
    + case_decide as Hpc; [| discriminate]. injection Hstep as <-.
      unfold stop_inv in *. rewrite Hpc in Hinv. destruct Hinv as [-> Hc].
      simpl. split; [reflexivity |]. by apply (closed_exactly_frame _ s).
    + destruct b; case_decide as Hpc; try discriminate;
        unfold stop_inv in *; rewrite Hpc in Hinv; destruct Hinv as [-> Hc];
        destruct r as [cause|]; injection Hstep as <-; simpl.
      * exists GatewayBackend, cause. repeat split.
        by apply (closed_exactly_frame _ s).
      * split; [reflexivity |].
        apply (closed_exactly_frame _ (close GatewayBackend s)); [done |].
        by apply (closed_exactly_close []).
      * exists ApplicationBackend, cause. repeat split.
        by apply (closed_exactly_frame _ s).
      * split; [reflexivity |].
        apply (closed_exactly_frame _ (close ApplicationBackend s)); [done |].
        by apply (closed_exactly_close [GatewayBackend]).
      * exists ControllerBackend, cause. repeat split.
        by apply (closed_exactly_frame _ s).
      * split; [reflexivity |].
        apply (closed_exactly_frame _ (close ControllerBackend s));
          [by intros [] |].
        by apply (closed_exactly_close [GatewayBackend; ApplicationBackend]).
    + case_decide as Hpc; [| discriminate]. destruct Hpc as [Hpc _].
      injection Hstep as <-.
      unfold stop_inv in *. rewrite Hpc in Hinv. destruct Hinv as [-> Hc].
      simpl. split; [reflexivity |]. by apply (closed_exactly_frame _ s).
  - unfold stop_history; simpl; rewrite Hl, app_nil_r.
    destruct (step_other_frame l s s' Hl Hstep) as [E1 E2].
    by apply (stop_inv_other h s).
Qed.

Lemma stop_inv_run (ls : list Label) :
  forall (h : list Label) (s s' : Server),
    stop_inv h s -> run ls s = Some s' ->
    stop_inv (h ++ stop_history ls) s'.
Proof.
  induction ls as [| l ls IH]; intros h s s' Hinv Hrun; simpl in Hrun.
  - injection Hrun as <-. unfold stop_history; simpl. by rewrite app_nil_r.
  - destruct (step l s) as [s1|] eqn:Hstep; [| discriminate].
    replace (stop_history (l :: ls))
      with (stop_history [l] ++ stop_history ls)
      by (unfold stop_history; simpl; by destruct (is_stop_label l)).
    rewrite app_assoc. apply (IH _ s1); [| exact Hrun].
    by apply (stop_inv_step h l s).
Qed.

Lemma stop_inv_NewServer (ctx : Context) : stop_inv [] (NewServer ctx).
Proof. split; [reflexivity | by intros []]. Qed.

Lemma elem_of_stop_history (l : Label) (ls : list Label) :
  l ∈ ls -> is_stop_label l = true -> l ∈ stop_history ls.
Proof.
  intros Hin Hl. unfold stop_history.
  apply list_elem_of_In, filter_In. split; [by apply list_elem_of_In | done].
Qed.

(** C6.  In every run of the server in which [Close()] of a backend
    fails with some cause: [Stop] has returned the close error of that
    backend around the cause; what [Stop] did is the call, a successful
    close of each backend that comes before the failing one in the
    order gateway, application, controller, and the failing close, and
    nothing after it; the channels closed are those of the backends
    before the failing one and no other; and [Stop] never came to wait
    on the server's WaitGroup. *)
Theorem Stop_close_failure (ctx : Context) (ls : list Label) (s : Server)
    (b : Backend) (cause : Error) :
  run ls (NewServer ctx) = Some s ->
  LClose b (Some cause) ∈ ls ->
  srv_stop s = StopReturned (Some (close_error b cause))
  /\ stop_history ls = stop_prefix (closed_before b) ++ [LClose b (Some cause)]
  /\ closed_exactly (closed_before b) s
  /\ LStopWait ∉ ls.
Proof.
  intros Hrun Hin.
  pose proof (stop_inv_run ls [] _ _ (stop_inv_NewServer ctx) Hrun) as Hinv.
  simpl in Hinv.
  apply elem_of_stop_history in Hin; [| reflexivity].
  assert (LStopWait ∈ ls -> LStopWait ∈ stop_history ls) as Hwait
    by (intros ?; by apply elem_of_stop_history).
  unfold stop_inv in Hinv.
  destruct (srv_stop s) as [| | | | |[err|]].
  1-5: destruct Hinv as [Hh _]; rewrite Hh in Hin; exfalso;
    apply list_elem_of_In in Hin; simpl in Hin; intuition discriminate.
  - destruct Hinv as (b0 & cause0 & -> & Hh & Hc).
    rewrite Hh in Hin, Hwait.
    assert (b0 = b /\ cause0 = cause) as [-> ->].
    { apply list_elem_of_In in Hin.
      destruct b0; simpl in Hin; intuition congruence. }
    repeat split; try done.
    intros Hw. apply Hwait, list_elem_of_In in Hw.
    destruct b; simpl in Hw; intuition discriminate.
  - destruct Hinv as [Hh _]; rewrite Hh in Hin; exfalso;
      apply list_elem_of_In in Hin; simpl in Hin; intuition discriminate.
Qed.

Ltac still_enabled :=
  intros;
  first [ match goal with H : is_Some None |- _ => by destruct H end
        | by eexists ].

Lemma step_LWorkerRun (s s' : Server) (i : nat) :
  step (LWorkerRun i) s = Some s' ->
  exists b j,
    srv_workers s !! i = Some (mkWorker b j WorkerProcess)
    /\ s' = set_workers
              (add_log (set_ctx s (run_job (srv_ctx s) j).1)
                 match (run_job (srv_ctx s) j).2 with
                 | Some err => [log_entry j err]
                 | None => []
                 end)
              (<[i := mkWorker b j WorkerDeferred]> (srv_workers s)).
Proof.
  unfold step, process. intros Hstep.
  destruct (srv_workers s !! i) as [[b j []]|]; try discriminate.
  exists b, j. split; [reflexivity |].
  destruct (run_job (srv_ctx s) j) as [ctx' [err|]];
    by injection Hstep as <-.
Qed.

(** C7.  When the goroutine of an item runs its processing call, the
    context becomes the one the call returned and the log gains the
    error line of the item if the call failed and nothing if it did
    not; in both cases the goroutine goes on to its deferred [Done],
    the three channels, both kinds of WaitGroup, the three loops, the
    goroutines of all other items and [Stop] are as before, and every
    step another goroutine could take before it can take after. *)
Theorem worker_failure_is_logged_only (s s' : Server) (i : nat) :
  step (LWorkerRun i) s = Some s' ->
  exists b j,
    srv_workers s !! i = Some (mkWorker b j WorkerProcess)
    /\ srv_ctx s' = (run_job (srv_ctx s) j).1
    /\ srv_log s'
       = srv_log s ++ match (run_job (srv_ctx s) j).2 with
                      | Some err => [log_entry j err]
                      | None => []
                      end
    /\ srv_workers s' = <[i := mkWorker b j WorkerDeferred]> (srv_workers s)
    /\ srv_rxChan s' = srv_rxChan s
    /\ srv_txChan s' = srv_txChan s
    /\ srv_txMACChan s' = srv_txMACChan s
    /\ srv_wg s' = srv_wg s
    /\ srv_loop s' = srv_loop s
    /\ srv_loop_wg s' = srv_loop_wg s
    /\ srv_stop s' = srv_stop s
    /\ forall l, l <> LWorkerRun i -> is_Some (step l s) -> is_Some (step l s').
Proof.
  intros Hstep. destruct (step_LWorkerRun s s' i Hstep) as (b & j & Hw & ->).
  exists b, j. split; [exact Hw |]. repeat (split; [reflexivity |]).
  clear Hstep. destruct s as [ctx rx tx mac wg loop lwg ws stop log].
  simpl in *. set (ctx' := (run_job ctx j).1).
  set (es := match _ with Some _ => _ | None => _ end).
  clearbody ctx' es.
  intros l Hl. destruct l; unfold step; simpl.
  - destruct (_ && _); still_enabled.
  - destruct j0; simpl; destruct (chan_closed _); still_enabled.
  - case_decide; still_enabled.
  - case_decide; [| still_enabled].
    destruct b0; simpl; destruct (chan_items _); still_enabled.
  - case_decide; [| still_enabled].
    destruct b0; simpl; destruct (chan_items _); try still_enabled;
      destruct (chan_closed _); still_enabled.
  - case_decide; still_enabled.
  - case_decide; still_enabled.
  - destruct (decide (i0 = i)) as [-> | Hne].
    + rewrite Hw. still_enabled.
    + rewrite list_lookup_insert_ne by done.
      destruct (ws !! i0) as [[b0 j0 []]|]; still_enabled.
  - destruct (decide (i0 = i)) as [-> | Hne]; [congruence |].
    rewrite list_lookup_insert_ne by done.
    destruct (ws !! i0) as [[b0 j0 []]|]; try still_enabled.
    unfold process.
    destruct (run_job ctx j0) as [? [?|]], (run_job ctx' j0) as [? [?|]];
      still_enabled.
  - destruct (decide (i0 = i)) as [-> | Hne].
    + rewrite Hw. still_enabled.
    + rewrite list_lookup_insert_ne by done.
      destruct (ws !! i0) as [[b0 j0 []]|]; still_enabled.
  - case_decide; still_enabled.
  - destruct b0; case_decide; try still_enabled; destruct r; still_enabled.
  - case_decide; still_enabled.
Qed.

(** A goroutine that a loop has spawned can run to its end, whatever
    the other goroutines have done. *)
Lemma spawned_worker_runs (s : Server) (i : nat) (b : Backend) (j : Job) :
  srv_workers s !! i = Some (mkWorker b j WorkerSpawned) ->
  is_Some (run [LWorkerAdd i; LWorkerRun i; LWorkerDone i] s).
Proof.
  intros Hw. pose proof (lookup_lt_Some _ _ _ Hw) as Hlt.
  destruct s as [ctx rx tx mac wg loop lwg ws stop log]. simpl in *.
  unfold run, step; simpl. rewrite Hw; simpl.
  rewrite list_lookup_insert_eq by done.
  destruct (process ctx j) as [ctx' es]; simpl.
  rewrite list_lookup_insert_eq by (by rewrite length_insert).
  by eexists.
Qed.

(** C5, as the code runs.  Whatever the context and the payload, the
    run [early_return_schedule] is a run of the server: all three loops
    have registered, ended and exited, [Stop] has closed the three
    backends, waited and returned nil; and the goroutine spawned for
    the payload is still in flight: it has not yet called [wg.Add], the
    context is untouched, and it runs to its end after [Stop] has
    returned. *)
Theorem Stop_returns_with_worker_in_flight (ctx : Context) (p : TXPayload) :
  exists s,
    run (early_return_schedule p) (NewServer ctx) = Some s
    /\ srv_stop s = StopReturned None
    /\ (forall b, srv_loop s b = LoopExited)
    /\ srv_workers s = [mkWorker ApplicationBackend (JobTX p) WorkerSpawned]
    /\ Exists (fun w => in_flight w = true) (srv_workers s)
    /\ srv_ctx s = ctx
    /\ is_Some (run [LWorkerAdd 0; LWorkerRun 0; LWorkerDone 0] s).
Proof.
  eexists. split; [vm_compute; reflexivity |].
  split; [reflexivity |].
  split; [intros []; vm_compute; reflexivity |].
  split; [reflexivity |].
  split; [apply Exists_cons_hd; reflexivity |].
  split; [reflexivity |].
  by apply (spawned_worker_runs _ 0 ApplicationBackend (JobTX p)).
Qed.
End SupervisorFacts.

(** ** The other methods of the node API *)

Section NodeAPIMoreFacts.
Context `{Lorawan} `{LorawanText} `{NodeStorage}.

Lemma uint8_range (x : Z) : 0 <= uint8 x < 256.
Proof. unfold uint8. apply Z.mod_pos_bound. lia. Qed.

Lemma NodeAPI_Create_effect_aux (ctx ctx' : Context) (req : CreateNodeRequest) :
  NodeAPI_Create ctx req = (ctx', inr tt) ->
  exists appEUI devEUI appKey,
    EUI64_UnmarshalText (creq_AppEUI req) = inr appEUI
    /\ EUI64_UnmarshalText (creq_DevEUI req) = inr devEUI
    /\ AES128Key_UnmarshalText (creq_AppKey req) = inr appKey
    /\ CreateNode (ctx_DB ctx)
         (mkNode devEUI appEUI appKey
            (uint8 (creq_RxDelay req)) (uint8 (creq_Rx1DROffset req))
            (if decide (creq_ChannelListID req > 0)
             then Some (creq_ChannelListID req) else None))
       = (ctx_DB ctx', None).
Proof.
  unfold NodeAPI_Create.
  destruct (EUI64_UnmarshalText (creq_AppEUI req)) as [?|appEUI]; [discriminate |].
  destruct (EUI64_UnmarshalText (creq_DevEUI req)) as [?|devEUI]; [discriminate |].
  destruct (AES128Key_UnmarshalText _) as [?|appKey]; [discriminate |].
  destruct (CreateNode _ _) as [db [err|]] eqn:Hcreate; [discriminate |].
  intros [= <-]. by eexists appEUI, devEUI, appKey.
Qed.

(** X7.  When [NodeAPI.Create] succeeds, the three texts of the request
    were parsed and the store was given, once, the node with the parsed
    device identity, application identity and root key, the receive
    delay and the RX1 data-rate offset of the request reduced modulo 256
    and therefore within a byte, and a channel-list reference that is
    the requested identifier when that is strictly positive and absent
    otherwise. *)
Theorem NodeAPI_Create_effect (ctx ctx' : Context) (req : CreateNodeRequest) :
  NodeAPI_Create ctx req = (ctx', inr tt) ->
  exists appEUI devEUI appKey node,
    EUI64_UnmarshalText (creq_AppEUI req) = inr appEUI
    /\ EUI64_UnmarshalText (creq_DevEUI req) = inr devEUI
    /\ AES128Key_UnmarshalText (creq_AppKey req) = inr appKey
    /\ CreateNode (ctx_DB ctx) node = (ctx_DB ctx', None)
    /\ ctx' = set_DB ctx (ctx_DB ctx')
    /\ node_DevEUI node = devEUI
    /\ node_AppEUI node = appEUI
    /\ node_AppKey node = appKey
    /\ node_RXDelay node = creq_RxDelay req mod 256
    /\ node_RX1DROffset node = creq_Rx1DROffset req mod 256
    /\ 0 <= node_RXDelay node < 256
    /\ 0 <= node_RX1DROffset node < 256
    /\ node_ChannelListID node
       = (if decide (creq_ChannelListID req > 0)
          then Some (creq_ChannelListID req) else None).
Proof.
  unfold NodeAPI_Create.
  destruct (EUI64_UnmarshalText (creq_AppEUI req)) as [?|appEUI]; [discriminate |].
  destruct (EUI64_UnmarshalText (creq_DevEUI req)) as [?|devEUI]; [discriminate |].
  destruct (AES128Key_UnmarshalText _) as [?|appKey]; [discriminate |].
  destruct (CreateNode _ _) as [db [err|]] eqn:Hcreate; [discriminate |].
  intros [= <-]. eexists appEUI, devEUI, appKey, _.
  repeat (split; [reflexivity |]). split; [exact Hcreate |]. simpl.
  repeat (split; [reflexivity |]).
  split; [apply uint8_range |]. split; [apply uint8_range | reflexivity].
Qed.

(** X8.  A request with a text that does not parse never reaches the
    store: [Create] and [Update] return the error of the first text that
    fails, in the order AppEUI, DevEUI, AppKey, and [Delete] and
    [FlushTXPayloadQueue] the error of the DevEUI; in each case the
    context is returned as it was given. *)
Theorem NodeAPI_malformed_text (ctx : Context) :
  (forall req err,
     EUI64_UnmarshalText (creq_AppEUI req) = inl err ->
     NodeAPI_Create ctx req = (ctx, inl err))
  /\ (forall req appEUI err,
        EUI64_UnmarshalText (creq_AppEUI req) = inr appEUI ->
        EUI64_UnmarshalText (creq_DevEUI req) = inl err ->
        NodeAPI_Create ctx req = (ctx, inl err))
  /\ (forall req appEUI devEUI err,
        EUI64_UnmarshalText (creq_AppEUI req) = inr appEUI ->
        EUI64_UnmarshalText (creq_DevEUI req) = inr devEUI ->
        AES128Key_UnmarshalText (creq_AppKey req) = inl err ->
        NodeAPI_Create ctx req = (ctx, inl err))
  /\ (forall req err,
        EUI64_UnmarshalText (req_AppEUI req) = inl err ->
        NodeAPI_Update ctx req = (ctx, inl err))
  /\ (forall req appEUI err,
        EUI64_UnmarshalText (req_AppEUI req) = inr appEUI ->
        EUI64_UnmarshalText (req_DevEUI req) = inl err ->
        NodeAPI_Update ctx req = (ctx, inl err))
  /\ (forall req appEUI devEUI err,
        EUI64_UnmarshalText (req_AppEUI req) = inr appEUI ->
        EUI64_UnmarshalText (req_DevEUI req) = inr devEUI ->
        AES128Key_UnmarshalText (req_AppKey req) = inl err ->
        NodeAPI_Update ctx req = (ctx, inl err))
  /\ (forall req err,
        EUI64_UnmarshalText (dreq_DevEUI req) = inl err ->
        NodeAPI_Delete ctx req = (ctx, inl err))
  /\ (forall req err,
        EUI64_UnmarshalText (flush_DevEUI req) = inl err ->
        NodeAPI_FlushTXPayloadQueue ctx req = (ctx, inl err)).
Proof.
  unfold NodeAPI_Create, NodeAPI_Update, NodeAPI_Delete,
    NodeAPI_FlushTXPayloadQueue.
  repeat split; intros; repeat match goal with E : _ = _ |- _ => rewrite E end;
    reflexivity.
Qed.

Lemma returnList_item_fields (node : Node) (item : GetNodeResponse) :
  returnList_item node = inr item ->
  EUI64_MarshalText (node_DevEUI node) = inr (resp_DevEUI item)
  /\ EUI64_MarshalText (node_AppEUI node) = inr (resp_AppEUI item)
  /\ AES128Key_MarshalText (node_AppKey node) = inr (resp_AppKey item)
  /\ resp_RxDelay item = node_RXDelay node
  /\ resp_Rx1DROffset item = node_RX1DROffset node
  /\ resp_ChannelListID item = default 0 (node_ChannelListID node).
Proof.
  unfold returnList_item.
  destruct (EUI64_MarshalText (node_AppEUI node)) as [?|appEUI]; [discriminate |].
  destruct (EUI64_MarshalText (node_DevEUI node)) as [?|devEUI]; [discriminate |].
  destruct (AES128Key_MarshalText _) as [?|appKey]; [discriminate |].
  intros [= <-]. simpl. repeat split.
Qed.

Lemma returnList_loop_inr (nodes : list Node) :
  forall acc result : list GetNodeResponse,
    returnList_loop nodes acc = inr result ->
    exists items,
      result = acc ++ items
      /\ Forall2 (fun node item => returnList_item node = inr item) nodes items.
Proof.
  induction nodes as [| node nodes IH]; intros acc result Hloop; simpl in Hloop.
  - injection Hloop as <-. exists []. split; [by rewrite app_nil_r | constructor].
  - destruct (returnList_item node) as [?|item] eqn:Hitem; [discriminate |].
    destruct (IH _ _ Hloop) as (items & -> & Hall).
    exists (item :: items). split; [by rewrite <- app_assoc |].
    by constructor.
Qed.

Lemma returnList_loop_total (nodes : list Node) :
  Forall (fun node => exists item, returnList_item node = inr item) nodes ->
  forall acc, exists result, returnList_loop nodes acc = inr result.
Proof.
  induction 1 as [| node nodes [item Hitem] _ IH]; intros acc; simpl.
  - by eexists.
  - rewrite Hitem. apply IH.
Qed.

Lemma returnList_loop_inl (pre post : list Node) (node : Node) (err : Error) :
  Forall (fun node => exists item, returnList_item node = inr item) pre ->
  returnList_item node = inl err ->
  forall acc, returnList_loop (pre ++ node :: post) acc = inl err.
Proof.
  induction 1 as [| n pre [item Hitem] _ IH]; intros Hnode acc; simpl.
  - by rewrite Hnode.
  - rewrite Hitem. by apply IH.
Qed.

(** X9.  When [returnList] succeeds, the response carries the count it
    was given, whatever the number of nodes, and one item per node, in
    the order of the nodes; the texts of an item are the marshalled
    identities and key of its node, its receive delay and RX1 data-rate
    offset are those of the node, and its channel-list identifier is the
    one the node refers to, or zero when the node refers to none. *)
Theorem NodeAPI_returnList_items (count : Z) (nodes : list Node)
    (resp : ListNodeResponse) :
  NodeAPI_returnList count nodes = inr resp ->
  lresp_TotalCount resp = count
  /\ length (lresp_Result resp) = length nodes
  /\ Forall2
       (fun node item =>
          EUI64_MarshalText (node_DevEUI node) = inr (resp_DevEUI item)
          /\ EUI64_MarshalText (node_AppEUI node) = inr (resp_AppEUI item)
          /\ AES128Key_MarshalText (node_AppKey node) = inr (resp_AppKey item)
          /\ resp_RxDelay item = node_RXDelay node
          /\ resp_Rx1DROffset item = node_RX1DROffset node
          /\ resp_ChannelListID item = default 0 (node_ChannelListID node))
       nodes (lresp_Result resp).
Proof.
  unfold NodeAPI_returnList.
  destruct (returnList_loop nodes []) as [?|result] eqn:Hloop; [discriminate |].
  intros [= <-]. simpl.
  destruct (returnList_loop_inr _ _ _ Hloop) as (items & -> & Hall). simpl.
  split; [reflexivity |]. split; [symmetry; by eapply Forall2_length |].
  eapply Forall2_impl; [exact Hall |].
  intros node item. apply returnList_item_fields.
Qed.

(** X10.  [returnList] succeeds when every node can be marshalled, and
    otherwise fails with the error of the first node in the list that
    cannot, whatever comes after it: no partial list is returned. *)
Theorem NodeAPI_returnList_first_error (count : Z) (pre post : list Node) :
  Forall (fun node => exists item, returnList_item node = inr item) pre ->
  (forall node err,
     returnList_item node = inl err ->
     NodeAPI_returnList count (pre ++ node :: post) = inl err)
  /\ exists resp, NodeAPI_returnList count pre = inr resp.
Proof.
  intros Hpre. split.
  - intros node err Hnode. unfold NodeAPI_returnList.
    by rewrite (returnList_loop_inl pre post node err Hpre Hnode).
  - unfold NodeAPI_returnList.
    destruct (returnList_loop_total pre Hpre []) as [result ->]. by eexists.
Qed.

(** X11.  [List] does not look at the error of the count query: when
    the query for the nodes succeeds and the count query fails, [List]
    answers as [returnList] does for the count value that came with the
    error, and so succeeds if the nodes can be marshalled.  Under the
    same conditions [ListByAppEUI] returns the error of its count
    query. *)
Theorem NodeAPI_List_count_error (ctx : Context) (err : Error) :
  (forall req nodes count,
     GetNodes (ctx_DB ctx) (lreq_Limit req) (lreq_Offset req) = inr nodes ->
     GetNodesCount (ctx_DB ctx) = (count, Some err) ->
     NodeAPI_List ctx req = NodeAPI_returnList count nodes
     /\ (Forall (fun node => exists item, returnList_item node = inr item) nodes ->
         exists resp,
           NodeAPI_List ctx req = inr resp
           /\ lresp_TotalCount resp = count
           /\ length (lresp_Result resp) = length nodes))
  /\ (forall req eui nodes count,
        EUI64_UnmarshalText (lareq_AppEUI req) = inr eui ->
        GetNodesForAppEUI (ctx_DB ctx) eui (lareq_Limit req) (lareq_Offset req)
        = inr nodes ->
        GetNodesForAppEUICount (ctx_DB ctx) eui = (count, Some err) ->
        NodeAPI_ListByAppEUI ctx req = inl err).
Proof.
  split.
  - intros req nodes count Hnodes Hcount.
    assert (NodeAPI_List ctx req = NodeAPI_returnList count nodes) as E
      by (unfold NodeAPI_List; by rewrite Hnodes, Hcount).
    split; [exact E |]. intros Hall. rewrite E.
    destruct (NodeAPI_returnList_first_error count nodes [] Hall)
      as [_ [resp Hresp]].
    exists resp. split; [exact Hresp |].
    destruct (NodeAPI_returnList_items _ _ _ Hresp) as (Hc & Hl & _). by split.
  - intros req eui nodes count Heui Hnodes Hcount.
    unfold NodeAPI_ListByAppEUI. by rewrite Heui, Hnodes, Hcount.
Qed.

(** X12.  A node read back after its creation.  When [Create] has
    succeeded, the store returns for a device identity the node it was
    given, and identities and keys can be marshalled, [Get] for the
    DevEUI text of the creation request succeeds; the response has the
    receive delay and the RX1 data-rate offset of the request reduced
    modulo 256, and the channel-list identifier of the request when that
    is positive and zero otherwise. *)
Theorem NodeAPI_Get_after_Create (ctx ctx' : Context) (req : CreateNodeRequest) :
  NodeAPI_Create ctx req = (ctx', inr tt) ->
  (forall node, CreateNode (ctx_DB ctx) node = (ctx_DB ctx', None) ->
                GetNode (ctx_DB ctx') (node_DevEUI node) = inr node) ->
  (forall e, exists text, EUI64_MarshalText e = inr text) ->
  (forall k, exists text, AES128Key_MarshalText k = inr text) ->
  exists resp,
    NodeAPI_Get ctx' (mkGetNodeRequest (creq_DevEUI req)) = inr resp
    /\ resp_RxDelay resp = creq_RxDelay req mod 256
    /\ resp_Rx1DROffset resp = creq_Rx1DROffset req mod 256
    /\ resp_ChannelListID resp = Z.max (creq_ChannelListID req) 0.
Proof.
  intros Hcreate Hstore Heui Hkey.
  destruct (NodeAPI_Create_effect_aux _ _ _ Hcreate)
    as (appEUI & devEUI & appKey & Happ & Hdev & Hk & Hnode).
  specialize (Hstore _ Hnode). simpl in Hstore.
  unfold NodeAPI_Get. simpl. rewrite Hdev, Hstore. simpl.
  destruct (Heui devEUI) as [t1 ->]. destruct (Heui appEUI) as [t2 ->].
  destruct (Hkey appKey) as [t3 ->].
  eexists. split; [reflexivity |]. simpl. repeat split.
  case_decide; lia.
Qed.
End NodeAPIMoreFacts.

(** ** Validation in [API.CreateNodeSession] *)

Section APIMoreFacts.
Context `{Lorawan} `{Storage}.

(** X13.  For a session whose DevAddr carries the NwkID of the
    configured NetID, [API.CreateNodeSession] stores nothing unless the
    node and the application the session names are both known: a
    failing lookup of the node is returned first, then a failing lookup
    of the application, each with the context as it was given; and when
    the method succeeds both lookups had succeeded. *)
Theorem API_CreateNodeSession_validation (ctx : Context) (ns : NodeSession) :
  DevAddr_NwkID (ns_DevAddr ns) = NetID_NwkID (ctx_NetID ctx) ->
  (forall err,
     GetNode (ctx_DB ctx) (ns_DevEUI ns) = inl err ->
     API_CreateNodeSession ctx ns = (ctx, inl err))
  /\ (forall node err,
        GetNode (ctx_DB ctx) (ns_DevEUI ns) = inr node ->
        GetApplication (ctx_DB ctx) (ns_AppEUI ns) = inl err ->
        API_CreateNodeSession ctx ns = (ctx, inl err))
  /\ (forall ctx' devAddr,
        API_CreateNodeSession ctx ns = (ctx', inr devAddr) ->
        exists node app,
          GetNode (ctx_DB ctx) (ns_DevEUI ns) = inr node
          /\ GetApplication (ctx_DB ctx) (ns_AppEUI ns) = inr app).
Proof.
  intros Hid. unfold API_CreateNodeSession.
  case_decide as Hne; [contradiction |]. repeat split.
  - by intros err ->.
  - by intros node err -> ->.
  - intros ctx' devAddr.
    destruct (GetNode _ _) as [?|node]; [discriminate |].
    destruct (GetApplication _ _) as [?|app]; [discriminate |].
    intros _. by exists node, app.
Qed.
End APIMoreFacts.
(** ** The supervisor: what the WaitGroups count *)

Lemma list_insert_split {A : Type} (l : list A) (i : nat) (x y : A) :
  l !! i = Some x ->
  exists l1 l2, l = l1 ++ x :: l2 /\ <[i:=y]> l = l1 ++ y :: l2.
Proof.
  intros Hl. exists (take i l), (drop (S i) l). split.
  - symmetry. by apply take_drop_middle.
  - apply insert_take_drop. by eapply lookup_lt_Some.
Qed.

Lemma filter_length_insert {A : Type} (P : A -> bool) (l : list A) (i : nat)
    (x y : A) :
  l !! i = Some x ->
  (length (List.filter P (<[i:=y]> l)) + (if P x then 1 else 0)
   = length (List.filter P l) + (if P y then 1 else 0))%nat.
Proof.
  intros Hl. destruct (list_insert_split l i x y Hl) as (l1 & l2 & -> & ->).
  rewrite !List.filter_app, !length_app. simpl.
  destruct (P x), (P y); simpl; lia.
Qed.

Lemma map_filter_insert {A B : Type} (P : A -> bool) (f : A -> B)
    (l : list A) (i : nat) (x y : A) :
  l !! i = Some x -> P y = P x -> f y = f x ->
  map f (List.filter P (<[i:=y]> l)) = map f (List.filter P l).
Proof.
  intros Hl HP Hf. destruct (list_insert_split l i x y Hl) as (l1 & l2 & -> & ->).
  rewrite !List.filter_app, !map_app. simpl. rewrite HP.
  destruct (P x); simpl; by rewrite ?Hf.
Qed.

Lemma registered_loops_insert (loop : Backend -> LoopPC) (b : Backend)
    (pc : LoopPC) :
  (length (List.filter (fun b' => loop_registered ((<[b:=pc]> loop) b'))
             all_backends)
   + (if loop_registered (loop b) then 1 else 0)
   = length (List.filter (fun b' => loop_registered (loop b')) all_backends)
     + (if loop_registered pc then 1 else 0))%nat.
Proof.
  destruct b; unfold all_backends; simpl;
    repeat (rewrite fn_lookup_insert || rewrite fn_lookup_insert_ne by done);
    destruct (loop_registered (loop GatewayBackend)),
      (loop_registered (loop ApplicationBackend)),
      (loop_registered (loop ControllerBackend)),
      (loop_registered pc); simpl; lia.
Qed.

Lemma of_loop_mkWorker (b' b : Backend) (j : Job) (pc : WorkerPC) :
  of_loop b' (mkWorker b j pc) = bool_decide (b = b').
Proof. reflexivity. Qed.

Ltac srv_simpl :=
  cbn [srv_ctx srv_rxChan srv_txChan srv_txMACChan srv_wg srv_loop srv_loop_wg
       srv_workers srv_stop srv_log set_ctx set_rxChan set_txChan
       set_txMACChan set_wg set_loop set_loop_wg set_workers set_stop add_log
       w_loop w_job w_pc chan_items chan_closed] in *.

Ltac worker_count b' ws i w' Hw E :=
  pose proof (filter_length_insert
                (fun w => of_loop b' w && worker_registered (w_pc w))
                ws i _ w' Hw) as E;
  cbv beta in E; rewrite !of_loop_mkWorker in E;
  cbn [w_pc worker_registered] in E;
  rewrite ?andb_false_r, ?andb_true_r in E.

Section AccountingFacts.
Context `{Processors}.

Lemma wg_inv_NewServer (ctx : Context) : wg_inv (NewServer ctx).
Proof. split; [reflexivity | intros b; reflexivity]. Qed.

(** Every step keeps the two counts exact. *)
Lemma wg_inv_step (l : Label) (s s' : Server) :
  wg_inv s -> step l s = Some s' -> wg_inv s'.
Proof.
  intros [Hwg Hlwg] Hstep.
  destruct s as [ctx rx tx mac wg loop lwg ws stop log].
  unfold wg_inv, registered_loops, registered_workers in *. srv_simpl.
  destruct l; unfold step in Hstep; srv_simpl.
  - (* LStart *)
    unfold all_backends at 1 in Hstep. cbn [forallb] in Hstep.
    destruct (bool_decide (loop GatewayBackend = LoopNotSpawned)) eqn:E1;
      [| discriminate].
    destruct (bool_decide (loop ApplicationBackend = LoopNotSpawned)) eqn:E2;
      [| discriminate].
    destruct (bool_decide (loop ControllerBackend = LoopNotSpawned)) eqn:E3;
      [| discriminate].
    apply bool_decide_eq_true in E1, E2, E3.
    injection Hstep as <-. unfold all_backends in *. simpl.
    split; [| exact Hlwg].
    rewrite Hwg. simpl.
    repeat (rewrite fn_lookup_insert || rewrite fn_lookup_insert_ne by done).
    by rewrite E1, E2, E3.
  - (* LProduce *)
    destruct j; simpl in Hstep; destruct (chan_closed _); try discriminate;
      injection Hstep as <-; by split.
  - (* LLoopAdd *)
    case_decide as Hpc; [| discriminate]. injection Hstep as <-. srv_simpl.
    split; [| exact Hlwg].
    pose proof (registered_loops_insert loop b LoopRange) as E.
    rewrite Hpc in E. cbn [loop_registered] in E. lia.
  - (* LReceive *)
    case_decide as Hpc; [| discriminate].
    destruct b; cbn [receive] in Hstep; srv_simpl;
      match type of Hstep with
      | match match ?x with _ => _ end with _ => _ end = _ =>
          destruct x; [discriminate |]
      end; injection Hstep as <-; srv_simpl; (split; [exact Hwg |]);
      intros b'; rewrite List.filter_app, length_app;
      cbn [List.filter w_pc worker_registered];
      rewrite andb_false_r; cbn [length]; rewrite Nat.add_0_r; apply Hlwg.
  - (* LRangeEnd *)
    case_decide as Hpc; [| discriminate].
    destruct (receive b _); [discriminate |].
    destruct (is_closed b _); [| discriminate].
    injection Hstep as <-. srv_simpl. split; [| exact Hlwg].
    pose proof (registered_loops_insert loop b LoopWait) as E.
    rewrite Hpc in E. cbn [loop_registered] in E. lia.
  - (* LLoopWait *)
    case_decide as Hpc; [| discriminate]. destruct Hpc as [Hpc _].
    injection Hstep as <-. srv_simpl. split; [| exact Hlwg].
    pose proof (registered_loops_insert loop b LoopDeferred) as E.
    rewrite Hpc in E. cbn [loop_registered] in E. lia.
  - (* LLoopDone *)
    case_decide as Hpc; [| discriminate]. injection Hstep as <-. srv_simpl.
    split; [| exact Hlwg].
    pose proof (registered_loops_insert loop b LoopExited) as E.
    rewrite Hpc in E. cbn [loop_registered] in E. lia.
  - (* LWorkerAdd *)
    destruct (ws !! i) as [[b j []]|] eqn:Hw; try discriminate.
    injection Hstep as <-. srv_simpl. split; [exact Hwg |]. intros b'.
    worker_count b' ws i (mkWorker b j WorkerProcess) Hw E.
    destruct (decide (b = b')) as [-> | Hne].
    + rewrite fn_lookup_insert. rewrite bool_decide_eq_true_2 in E by done.
      rewrite Hlwg. lia.
    + rewrite fn_lookup_insert_ne by done.
      rewrite bool_decide_eq_false_2 in E by done. rewrite Hlwg. lia.
  - (* LWorkerRun *)
    destruct (ws !! i) as [[b j []]|] eqn:Hw; try discriminate.
    destruct (process ctx j) as [ctx' es]. injection Hstep as <-. srv_simpl.
    split; [exact Hwg |]. intros b'.
    worker_count b' ws i (mkWorker b j WorkerDeferred) Hw E.
    rewrite Hlwg. lia.
  - (* LWorkerDone *)
    destruct (ws !! i) as [[b j []]|] eqn:Hw; try discriminate.
    injection Hstep as <-. srv_simpl. split; [exact Hwg |]. intros b'.
    worker_count b' ws i (mkWorker b j WorkerExited) Hw E.
    destruct (decide (b = b')) as [-> | Hne].
    + rewrite fn_lookup_insert. rewrite bool_decide_eq_true_2 in E by done.
      rewrite Hlwg. lia.
    + rewrite fn_lookup_insert_ne by done.
      rewrite bool_decide_eq_false_2 in E by done. rewrite Hlwg. lia.
  - (* LStopCall *)
    case_decide; [| discriminate]. injection Hstep as <-. by split.
  - (* LClose *)
    destruct b; case_decide; try discriminate; destruct r;
      injection Hstep as <-; by split.
  - (* LStopWait *)
    case_decide; [| discriminate]. injection Hstep as <-. by split.
Qed.

Lemma wg_inv_run (ls : list Label) :
  forall s s' : Server, wg_inv s -> run ls s = Some s' -> wg_inv s'.
Proof.
  induction ls as [| l ls IH]; intros s s' Hinv Hrun; simpl in Hrun.
  - by injection Hrun as <-.
  - destruct (step l s) as [s1|] eqn:Hstep; [| discriminate].
    apply (IH s1); [| exact Hrun]. by apply (wg_inv_step l s).
Qed.

Lemma filter_all_backends_0 (P : Backend -> bool) :
  length (List.filter P all_backends) = 0%nat -> forall b, P b = false.
Proof.
  unfold all_backends. simpl. intros Hlen b.
  destruct (P GatewayBackend) eqn:E1, (P ApplicationBackend) eqn:E2,
    (P ControllerBackend) eqn:E3; try discriminate Hlen; by destruct b.
Qed.

Lemma filter_length_pos {A : Type} (P : A -> bool) (l : list A) (x : A) :
  In x l -> P x = true -> (0 < length (List.filter P l))%nat.
Proof.
  intros Hin HP.
  assert (In x (List.filter P l)) as Hx by (apply filter_In; by split).
  destruct (List.filter P l); [destruct Hx | simpl; lia].
Qed.

(** X1.  In every run of the server, at the moment the [s.wg.Wait()] of
    [Stop] returns and [Stop] returns nil, no loop goroutine is between
    its [s.wg.Add(1)] and its [s.wg.Done()]: each of the three has not
    been spawned, has not yet registered, or has exited. *)
Theorem Stop_wait_sees_no_registered_loop (ctx : Context) (ls : list Label)
    (s s' : Server) :
  run ls (NewServer ctx) = Some s ->
  step LStopWait s = Some s' ->
  srv_stop s' = StopReturned None
  /\ forall b, srv_loop s' b = LoopNotSpawned
               \/ srv_loop s' b = LoopSpawned
               \/ srv_loop s' b = LoopExited.
Proof.
  intros Hrun Hstep.
  destruct (wg_inv_run ls _ _ (wg_inv_NewServer ctx) Hrun) as [Hwg _].
  unfold step in Hstep. case_decide as Hpc; [| discriminate].
  destruct Hpc as [_ Hzero]. injection Hstep as <-. split; [reflexivity |].
  intros b. rewrite Hzero in Hwg. symmetry in Hwg.
  pose proof (filter_all_backends_0 _ Hwg b) as Hb. simpl in *.
  destruct (srv_loop s b); try discriminate Hb; auto.
Qed.

(** X2.  In every run of the server, at the moment the [wg.Wait()] of a
    loop returns, no goroutine that this loop spawned is between its
    [wg.Add(1)] and its [wg.Done()]: each has not yet registered or has
    exited. *)
Theorem loop_wait_sees_no_registered_worker (ctx : Context) (ls : list Label)
    (s s' : Server) (b : Backend) :
  run ls (NewServer ctx) = Some s ->
  step (LLoopWait b) s = Some s' ->
  forall w, In w (srv_workers s') -> w_loop w = b ->
            w_pc w = WorkerSpawned \/ w_pc w = WorkerExited.
Proof.
  intros Hrun Hstep w Hin Hb.
  destruct (wg_inv_run ls _ _ (wg_inv_NewServer ctx) Hrun) as [_ Hlwg].
  unfold step in Hstep. case_decide as Hpc; [| discriminate].
  destruct Hpc as [_ Hzero]. injection Hstep as <-. simpl in Hin.
  specialize (Hlwg b). rewrite Hzero in Hlwg. unfold registered_workers in Hlwg.
  destruct (worker_registered (w_pc w)) eqn:Hreg.
  - pose proof (filter_length_pos
                  (fun w => of_loop b w && worker_registered (w_pc w))
                  (srv_workers s) w Hin) as Hpos.
    simpl in Hpos. unfold of_loop in Hpos at 1.
    rewrite bool_decide_eq_true_2, Hreg in Hpos by done.
    specialize (Hpos eq_refl). lia.
  - destruct (w_pc w); try discriminate Hreg; auto.
Qed.

(** X3.  In every run of the server a deferred [Done] finds its
    WaitGroup counter positive: neither the [s.wg.Done()] of a loop nor
    the [wg.Done()] of a worker can drive a counter below zero. *)
Theorem Done_finds_positive_counter (ctx : Context) (ls : list Label)
    (s : Server) :
  run ls (NewServer ctx) = Some s ->
  (forall b, is_Some (step (LLoopDone b) s) -> (0 < srv_wg s)%nat)
  /\ (forall i w, srv_workers s !! i = Some w ->
                  is_Some (step (LWorkerDone i) s) ->
                  (0 < srv_loop_wg s (w_loop w))%nat).
Proof.
  intros Hrun.
  destruct (wg_inv_run ls _ _ (wg_inv_NewServer ctx) Hrun) as [Hwg Hlwg].
  split.
  - intros b [s' Hstep]. unfold step in Hstep.
    case_decide as Hpc; [| discriminate].
    rewrite Hwg. unfold registered_loops.
    apply (filter_length_pos _ _ b); [by destruct b; simpl; tauto |].
    by rewrite Hpc.
  - intros i w Hw [s' Hstep]. unfold step in Hstep. rewrite Hw in Hstep.
    destruct w as [b j []]; try discriminate. simpl.
    rewrite Hlwg. unfold registered_workers.
    apply (filter_length_pos _ _ (mkWorker b j WorkerDeferred)).
    + apply list_elem_of_In. by eapply list_elem_of_lookup_2.
    + unfold of_loop. simpl. by rewrite bool_decide_eq_true_2.
Qed.
End AccountingFacts.

(** ** The supervisor: where the items are *)

Section ItemFacts.
Context `{Processors}.

Lemma produced_app (b : Backend) (ls1 ls2 : list Label) :
  produced b (ls1 ++ ls2) = produced b ls1 ++ produced b ls2.
Proof. unfold produced. apply flat_map_app. Qed.

Lemma items_inv_NewServer (ctx : Context) : items_inv [] (NewServer ctx).
Proof. by intros []. Qed.

Lemma ended_inv_NewServer (ctx : Context) : ended_inv (NewServer ctx).
Proof. intros b Hb. discriminate Hb. Qed.

(** A step of a worker leaves the items where they are. *)
Lemma spawned_insert (b' b : Backend) (j : Job) (pc pc' : WorkerPC)
    (ws : list Worker) (i : nat) :
  ws !! i = Some (mkWorker b j pc) ->
  map w_job (List.filter (of_loop b') (<[i:=mkWorker b j pc']> ws))
  = map w_job (List.filter (of_loop b') ws).
Proof. intros Hw. by apply (map_filter_insert _ _ _ _ _ _ Hw). Qed.

Lemma items_inv_step (h : list Label) (l : Label) (s s' : Server) :
  items_inv h s -> step l s = Some s' -> items_inv (h ++ [l]) s'.
Proof.
  intros Hinv Hstep b'. specialize (Hinv b'). rewrite produced_app.
  destruct s as [ctx rx tx mac wg loop lwg ws stop log].
  unfold spawned, pending in *. srv_simpl.
  destruct l; unfold step in Hstep; srv_simpl; unfold produced at 2;
    cbn [flat_map]; rewrite ?app_nil_r.
  - destruct (forallb _ _); [| discriminate]. injection Hstep as <-.
    unfold all_backends; simpl. exact Hinv.
  - destruct j; simpl in Hstep; destruct (chan_closed _); try discriminate;
      injection Hstep as <-; srv_simpl; cbn [job_backend];
      destruct b'; case_decide; rewrite ?app_nil_r; try done;
      rewrite <- Hinv, map_app, app_assoc; reflexivity.
  - case_decide; [| discriminate]. by injection Hstep as <-.
  - case_decide; [| discriminate].
    destruct b; cbn [receive] in Hstep; srv_simpl;
      match type of Hstep with
      | match match ?x with _ => _ end with _ => _ end = _ =>
          destruct x eqn:Hitems; [discriminate |]
      end; injection Hstep as <-; srv_simpl;
      rewrite List.filter_app, map_app; cbn [List.filter];
      unfold of_loop at 2; cbn [w_loop];
      destruct b'; rewrite <- Hinv;
      first [ rewrite bool_decide_eq_true_2 by done
            | rewrite bool_decide_eq_false_2 by done ];
      cbn [map w_job]; rewrite ?app_nil_r; try reflexivity;
      by rewrite <- app_assoc.
  - case_decide; [| discriminate]. destruct (receive b _); [discriminate |].
    destruct (is_closed b _); [| discriminate]. by injection Hstep as <-.
  - case_decide; [| discriminate]. by injection Hstep as <-.
  - case_decide; [| discriminate]. by injection Hstep as <-.
  - destruct (ws !! i) as [[b j []]|] eqn:Hw; try discriminate.
    injection Hstep as <-. srv_simpl. by rewrite (spawned_insert _ _ _ _ _ _ _ Hw).
  - destruct (ws !! i) as [[b j []]|] eqn:Hw; try discriminate.
    destruct (process ctx j). injection Hstep as <-. srv_simpl.
    by rewrite (spawned_insert _ _ _ _ _ _ _ Hw).
  - destruct (ws !! i) as [[b j []]|] eqn:Hw; try discriminate.
    injection Hstep as <-. srv_simpl. by rewrite (spawned_insert _ _ _ _ _ _ _ Hw).
  - case_decide; [| discriminate]. by injection Hstep as <-.
  - destruct b; case_decide; try discriminate; destruct r;
      injection Hstep as <-; by destruct b'.
  - case_decide; [| discriminate]. by injection Hstep as <-.
Qed.

Lemma items_inv_run (ls : list Label) :
  forall (h : list Label) (s s' : Server),
    items_inv h s -> run ls s = Some s' -> items_inv (h ++ ls) s'.
Proof.
  induction ls as [| l ls IH]; intros h s s' Hinv Hrun; simpl in Hrun.
  - injection Hrun as <-. by rewrite app_nil_r.
  - destruct (step l s) as [s1|] eqn:Hstep; [| discriminate].
    replace (h ++ l :: ls) with ((h ++ [l]) ++ ls) by by rewrite <- app_assoc.
    apply (IH _ s1); [| exact Hrun]. by apply (items_inv_step h l s).
Qed.

(** X4.  In every run of the server and for each backend, the items
    its loop has handed to goroutines, in the order of the [go]
    statements, followed by the items still on its channel, are the
    items the backend has sent, in the order sent: no item is lost,
    duplicated, overtaken, or handed to the loop of another backend. *)
Theorem items_conserved (ctx : Context) (ls : list Label) (s : Server)
    (b : Backend) :
  run ls (NewServer ctx) = Some s ->
  spawned b s ++ pending b s = produced b ls.
Proof.
  intros Hrun.
  apply (items_inv_run ls [] _ _ (items_inv_NewServer ctx) Hrun).
Qed.

Lemma receive_None (b : Backend) (s : Server) :
  receive b s = None -> pending b s = [].
Proof.
  destruct s as [ctx rx tx mac wg loop lwg ws stop log].
  destruct b; simpl;
    match goal with |- context [chan_items ?c] => destruct (chan_items c) end;
    by try discriminate.
Qed.

Lemma ended_inv_step (l : Label) (s s' : Server) :
  ended_inv s -> step l s = Some s' -> ended_inv s'.
Proof.
  intros Hinv Hstep b' Hend.
  destruct s as [ctx rx tx mac wg loop lwg ws stop log].
  unfold ended_inv in Hinv. srv_simpl.
  destruct l; unfold step in Hstep; srv_simpl.
  - destruct (forallb _ _); [| discriminate]. injection Hstep as <-.
    unfold all_backends in Hend; simpl in Hend.
    destruct b';
      repeat (rewrite fn_lookup_insert in Hend
              || rewrite fn_lookup_insert_ne in Hend by done);
      discriminate Hend.
  - destruct (is_closed (job_backend j) _) eqn:Hopen; [discriminate |].
    injection Hstep as <-.
    destruct (decide (b' = job_backend j)) as [-> | Hne].
    + destruct j; simpl in Hend; destruct (Hinv _ Hend) as [Hc _];
        simpl in Hc, Hopen; congruence.
    + destruct j; simpl in Hend; destruct (Hinv _ Hend) as [Hc Hp];
        by destruct b'.
  - case_decide as Hpc; [| discriminate]. injection Hstep as <-.
    srv_simpl. destruct (decide (b = b')) as [-> | Hne].
    + rewrite fn_lookup_insert in Hend. discriminate Hend.
    + rewrite fn_lookup_insert_ne in Hend by done. exact (Hinv _ Hend).
  - case_decide as Hpc; [| discriminate].
    destruct (receive b _) as [[j s1]|] eqn:Hrecv; [| discriminate].
    injection Hstep as <-.
    assert (b' <> b) as Hne.
    { intros ->.
      destruct b; cbn [receive] in Hrecv; srv_simpl;
        match type of Hrecv with
        | match ?x with _ => _ end = _ => destruct x; [discriminate |]
        end; injection Hrecv as <- <-; simpl in Hend;
        rewrite Hpc in Hend; discriminate Hend. }
    destruct b; cbn [receive] in Hrecv; srv_simpl;
      match type of Hrecv with
      | match ?x with _ => _ end = _ => destruct x; [discriminate |]
      end; injection Hrecv as <- <-; simpl in Hend;
      destruct (Hinv _ Hend); by destruct b'.
  - case_decide as Hpc; [| discriminate].
    destruct (receive b _) eqn:Hrecv; [discriminate |].
    destruct (is_closed b _) eqn:Hclosed; [| discriminate].
    injection Hstep as <-. srv_simpl.
    destruct (decide (b = b')) as [-> | Hne].
    + split; [exact Hclosed | exact (receive_None _ _ Hrecv)].
    + rewrite fn_lookup_insert_ne in Hend by done. exact (Hinv _ Hend).
  - case_decide as Hpc; [| discriminate]. destruct Hpc as [Hpc _].
    injection Hstep as <-. srv_simpl.
    destruct (decide (b = b')) as [-> | Hne].
    + apply Hinv. simpl. by rewrite Hpc.
    + rewrite fn_lookup_insert_ne in Hend by done. exact (Hinv _ Hend).
  - case_decide as Hpc; [| discriminate]. injection Hstep as <-. srv_simpl.
    destruct (decide (b = b')) as [-> | Hne].
    + apply Hinv. simpl. by rewrite Hpc.
    + rewrite fn_lookup_insert_ne in Hend by done. exact (Hinv _ Hend).
  - destruct (ws !! i) as [[b j []]|]; try discriminate.
    injection Hstep as <-. exact (Hinv _ Hend).
  - destruct (ws !! i) as [[b j []]|]; try discriminate.
    destruct (process ctx j). injection Hstep as <-. exact (Hinv _ Hend).
  - destruct (ws !! i) as [[b j []]|]; try discriminate.
    injection Hstep as <-. exact (Hinv _ Hend).
  - case_decide; [| discriminate]. injection Hstep as <-. exact (Hinv _ Hend).
  - destruct b; case_decide; try discriminate; destruct r;
      injection Hstep as <-; simpl in Hend; destruct (Hinv _ Hend);
      by destruct b'.
  - case_decide; [| discriminate]. injection Hstep as <-. exact (Hinv _ Hend).
Qed.

Lemma ended_inv_run (ls : list Label) :
  forall s s' : Server, ended_inv s -> run ls s = Some s' -> ended_inv s'.
Proof.
  induction ls as [| l ls IH]; intros s s' Hinv Hrun; simpl in Hrun.
  - by injection Hrun as <-.
  - destruct (step l s) as [s1|] eqn:Hstep; [| discriminate].
    apply (IH s1); [| exact Hrun]. by apply (ended_inv_step l s).
Qed.

(** X5.  In every run of the server, once the loop of a backend has left
    its [for ... range], the channel of that backend is closed and
    empty, and every item the backend has sent in the run has been handed
    to a goroutine of the loop, in the order sent. *)
Theorem ended_loop_has_spawned_all (ctx : Context) (ls : list Label)
    (s : Server) (b : Backend) :
  run ls (NewServer ctx) = Some s ->
  loop_ended (srv_loop s b) = true ->
  is_closed b s = true /\ pending b s = [] /\ spawned b s = produced b ls.
Proof.
  intros Hrun Hend.
  destruct (ended_inv_run ls _ _ (ended_inv_NewServer ctx) Hrun b Hend)
    as [Hclosed Hpending].
  pose proof (items_inv_run ls [] _ _ (items_inv_NewServer ctx) Hrun b) as Hitems.
  rewrite Hpending, app_nil_r in Hitems. by repeat split.
Qed.

(** X6.  In every run of the server in which [Stop] has returned nil,
    what [Stop] did is the call, a successful [Close()] of the gateway,
    of the application and of the controller backend, in this order, and
    the wait; and all three channels are closed. *)
Theorem Stop_nil_closed_all (ctx : Context) (ls : list Label) (s : Server) :
  run ls (NewServer ctx) = Some s ->
  srv_stop s = StopReturned None ->
  stop_history ls
  = [LStopCall; LClose GatewayBackend None; LClose ApplicationBackend None;
     LClose ControllerBackend None; LStopWait]
  /\ forall b, is_closed b s = true.
Proof.
  intros Hrun Hpc.
  pose proof (stop_inv_run ls [] _ _ (stop_inv_NewServer ctx) Hrun) as Hinv.
  simpl in Hinv. unfold stop_inv in Hinv. rewrite Hpc in Hinv.
  destruct Hinv as [Hh Hc]. split; [exact Hh |].
  intros b. rewrite Hc. by destruct b.
Qed.
End ItemFacts.

(** ** The supervisor: each item is processed once *)

Section ProcessingFacts.
Context `{Processors}.

Lemma runs_of_app (i : nat) (ls1 ls2 : list Label) :
  runs_of i (ls1 ++ ls2) = (runs_of i ls1 + runs_of i ls2)%nat.
Proof. unfold runs_of. by rewrite List.filter_app, length_app. Qed.

Lemma processed_count_insert (ws : list Worker) (i k : nat) (b : Backend)
    (j : Job) (pc pc' : WorkerPC) :
  ws !! k = Some (mkWorker b j pc) ->
  match <[k:=mkWorker b j pc']> ws !! i with
  | Some w => if worker_processed (w_pc w) then 1%nat else 0%nat
  | None => 0%nat
  end
  = if decide (k = i)
    then (if worker_processed pc' then 1%nat else 0%nat)
    else match ws !! i with
         | Some w => if worker_processed (w_pc w) then 1%nat else 0%nat
         | None => 0%nat
         end.
Proof.
  intros Hk. case_decide as Hki.
  - subst i. rewrite list_lookup_insert_eq by by eapply lookup_lt_Some.
    reflexivity.
  - by rewrite list_lookup_insert_ne.
Qed.

Lemma runs_inv_step (h : list Label) (l : Label) (s s' : Server) :
  runs_inv h s -> step l s = Some s' -> runs_inv (h ++ [l]) s'.
Proof.
  intros Hinv Hstep i. specialize (Hinv i). rewrite runs_of_app, Hinv.
  destruct s as [ctx rx tx mac wg loop lwg ws stop log].
  unfold processed_count in *. srv_simpl. clear Hinv.
  destruct l; unfold step in Hstep; srv_simpl; unfold runs_of;
    cbn [List.filter length].
  - destruct (forallb _ _); [| discriminate]. injection Hstep as <-.
    unfold all_backends; simpl. lia.
  - destruct j; simpl in Hstep; destruct (chan_closed _); try discriminate;
      injection Hstep as <-; simpl; lia.
  - case_decide; [| discriminate]. injection Hstep as <-. simpl. lia.
  - case_decide; [| discriminate].
    destruct b; cbn [receive] in Hstep; srv_simpl;
      match type of Hstep with
      | match match ?x with _ => _ end with _ => _ end = _ =>
          destruct x; [discriminate |]
      end; injection Hstep as <-; srv_simpl; rewrite Nat.add_0_r;
      match goal with
      | |- _ = match (ws ++ [?w]) !! i with _ => _ end =>
          destruct (ws !! i) as [w0|] eqn:Hi;
          [ by rewrite (lookup_app_l_Some _ _ _ _ Hi)
          | destruct ((ws ++ [w]) !! i) as [w1|] eqn:Hi'; [| reflexivity];
            apply lookup_app_Some in Hi' as [Hi' | [_ Hi']]; [congruence |];
            apply list_lookup_singleton_Some in Hi' as [_ <-]; reflexivity ]
      end.
  - case_decide; [| discriminate]. destruct (receive b _); [discriminate |].
    destruct (is_closed b _); [| discriminate]. injection Hstep as <-.
    simpl. lia.
  - case_decide; [| discriminate]. injection Hstep as <-. simpl. lia.
  - case_decide; [| discriminate]. injection Hstep as <-. simpl. lia.
  - destruct (ws !! i0) as [[b j []]|] eqn:Hw; try discriminate.
    injection Hstep as <-. srv_simpl.
    rewrite (processed_count_insert ws i i0 b j _ WorkerProcess Hw).
    case_decide as Hki; [subst i0; rewrite Hw |]; simpl; lia.
  - destruct (ws !! i0) as [[b j []]|] eqn:Hw; try discriminate.
    destruct (process ctx j). injection Hstep as <-. srv_simpl.
    rewrite (processed_count_insert ws i i0 b j _ WorkerDeferred Hw).
    case_decide as Hki.
    + subst i0. rewrite Hw, Nat.eqb_refl. simpl. lia.
    + apply Nat.eqb_neq in Hki. rewrite Hki. simpl. lia.
  - destruct (ws !! i0) as [[b j []]|] eqn:Hw; try discriminate.
    injection Hstep as <-. srv_simpl.
    rewrite (processed_count_insert ws i i0 b j _ WorkerExited Hw).
    case_decide as Hki; [subst i0; rewrite Hw |]; simpl; lia.
  - case_decide; [| discriminate]. injection Hstep as <-. simpl. lia.
  - destruct b; case_decide; try discriminate; destruct r;
      injection Hstep as <-; simpl; lia.
  - case_decide; [| discriminate]. injection Hstep as <-. simpl. lia.
Qed.

Lemma runs_inv_run (ls : list Label) :
  forall (h : list Label) (s s' : Server),
    runs_inv h s -> run ls s = Some s' -> runs_inv (h ++ ls) s'.
Proof.
  induction ls as [| l ls IH]; intros h s s' Hinv Hrun; simpl in Hrun.
  - injection Hrun as <-. by rewrite app_nil_r.
  - destruct (step l s) as [s1|] eqn:Hstep; [| discriminate].
    replace (h ++ l :: ls) with ((h ++ [l]) ++ ls) by by rewrite <- app_assoc.
    apply (IH _ s1); [| exact Hrun]. by apply (runs_inv_step h l s).
Qed.

(** X14.  In every run of the server the goroutine of an item makes its
    processing call at most once: once when it has gone past the call,
    to its deferred [Done] or to its end, and not at all before.  With
    X4 this means that no item a backend sends is processed twice. *)
Theorem item_processed_once (ctx : Context) (ls : list Label) (s : Server)
    (i : nat) :
  run ls (NewServer ctx) = Some s ->
  (runs_of i ls <= 1)%nat
  /\ (forall w, srv_workers s !! i = Some w ->
                (runs_of i ls = 1%nat <->
                 w_pc w = WorkerDeferred \/ w_pc w = WorkerExited))
  /\ (srv_workers s !! i = None -> runs_of i ls = 0%nat).
Proof.
  intros Hrun.
  assert (runs_inv [] (NewServer ctx)) as Hinit by (intros k; reflexivity).
  pose proof (runs_inv_run ls [] _ _ Hinit Hrun i) as Hinv. simpl in Hinv.
  unfold processed_count in Hinv. rewrite Hinv.
  destruct (srv_workers s !! i) as [w|].
  - split; [destruct (worker_processed (w_pc w)); lia |].
    split; [| discriminate].
    intros w0 [= <-].
    destruct (w_pc w); simpl; split; intros Hx; try lia; auto;
      destruct Hx; discriminate.
  - split; [lia |]. split; [discriminate | reflexivity].
Qed.
End ProcessingFacts.
(** ** The properties on the network of the example *)

Section Examples.
#[local] Existing Instance HexLorawan.
#[local] Existing Instance PlainCodec.
#[local] Existing Instance Counter32.

Lemma handleRXPacket_dispatch_witness :
  handleRXPacket example_ctx (example_join 0)
  = validateAndCollectJoinRequestPacket example_ctx (example_join 0)
  /\ handleRXPacket example_ctx (example_dataUp ConfirmedDataUp 6 7)
     = validateAndCollectDataUpRXPacket example_ctx
         (example_dataUp ConfirmedDataUp 6 7)
  /\ handleRXPacket example_ctx (example_dataUp Proprietary 6 7)
     = (example_ctx, Some (ErrUnknownMType Proprietary)).
Proof.
  split; [| split].
  - apply (handleRXPacket_dispatch example_ctx (example_join 0)).
    reflexivity.
  - apply (handleRXPacket_dispatch example_ctx
             (example_dataUp ConfirmedDataUp 6 7)).
    right; reflexivity.
  - apply (handleRXPacket_dispatch example_ctx
             (example_dataUp Proprietary 6 7)); discriminate.
Defined.




Lemma API_CreateNodeSession_NwkID_witness :
  API_CreateNodeSession example_ctx (mkNodeSession 5 258 513 11 7 0 0)
  = (example_ctx, inl (ErrNwkID 3))
  /\ exists ctx',
       API_CreateNodeSession example_ctx
         (mkNodeSession 100663298 258 513 11 7 0 0)
       = (ctx', inr 100663298)
       /\ DevAddr_NwkID 100663298 = NetID_NwkID (ctx_NetID example_ctx).
Proof.
  split.
  - refine (proj1 (API_CreateNodeSession_NwkID example_ctx
                     (mkNodeSession 5 258 513 11 7 0 0)) _).
    by vm_compute.
  - eexists. split; [reflexivity |].
    refine (proj1 (proj2 (API_CreateNodeSession_NwkID example_ctx
                            (mkNodeSession 100663298 258 513 11 7 0 0))
                     _ 100663298 _)).
    reflexivity.
Defined.

Lemma API_UpdateNodeSession_unchecked_witness :
  DevAddr_NwkID 5 <> NetID_NwkID (ctx_NetID example_ctx)
  /\ GetNode (ctx_DB example_ctx) 999 = inl NotFoundError
  /\ (exists ctx',
        API_UpdateNodeSession example_ctx (mkNodeSession 5 999 998 11 7 0 0)
        = (ctx', inr 999)
        /\ API_GetNodeSession ctx' 5 = inr (mkNodeSession 5 999 998 11 7 0 0)
        /\ ctx_DB ctx' = ctx_DB example_ctx)
  /\ exists err,
       API_CreateNodeSession example_ctx (mkNodeSession 5 999 998 11 7 0 0)
       = (example_ctx, inl err).
Proof.
  split; [by vm_compute |]. split; [reflexivity |].
  apply (API_UpdateNodeSession_unchecked example_ctx
           (mkNodeSession 5 999 998 11 7 0 0)).
  by vm_compute.
Defined.

Lemma NodeAPI_FlushTXPayloadQueue_empties_witness :
  let r := NodeAPI_FlushTXPayloadQueue example_ctx
             (mkFlushTXPayloadQueueRequest "0000000000000102") in
  GetTXPayloadQueue (ctx_RedisPool example_ctx) 258 = inr [example_payload]
  /\ r.2 = inr tt
  /\ exists devEUI,
       EUI64_UnmarshalText "0000000000000102" = inr devEUI
       /\ GetTXPayloadQueue (ctx_RedisPool r.1) devEUI = inr [].
Proof.
  intros r. split; [reflexivity |]. split; [reflexivity |].
  destruct (NodeAPI_FlushTXPayloadQueue_empties example_ctx r.1
              (mkFlushTXPayloadQueueRequest "0000000000000102"))
    as (devEUI & Htext & Hempty & _); [reflexivity |].
  exists devEUI. split; assumption.
Defined.

Lemma NodeAPI_Update_effect_witness :
  let r := NodeAPI_Update example_ctx example_update in
  r.2 = inr tt
  /\ (exists old new,
        GetNode (ctx_DB example_ctx) 258 = inr old
        /\ UpdateNode (ctx_DB example_ctx) new = (ctx_DB r.1, None)
        /\ node_DevEUI new = node_DevEUI old
        /\ node_RXDelay new = 300 mod 256
        /\ node_ChannelListID new = Some 7)
  /\ NodeAPI_Update example_ctx example_update_unknown
     = (example_ctx, inl NotFoundError).
Proof.
  intros r. split; [reflexivity |]. split.
  - destruct (NodeAPI_Update_effect example_ctx example_update 513 258 43)
      as [_ Hsuccess]; [reflexivity .. |].
    destruct (Hsuccess r.1)
      as (old & new & Hold & Hnew & _ & Hdev & _ & _ & Hdelay & _ & Hset & _);
      [reflexivity |].
    exists old, new. repeat split; try assumption.
    apply Hset. simpl. lia.
  - destruct (NodeAPI_Update_effect example_ctx example_update_unknown
                513 999 43) as [Hmissing _]; [reflexivity .. |].
    apply Hmissing. reflexivity.
Defined.

Lemma Stop_close_failure_witness :
  let cause := ErrIO "broker unreachable" in
  let ls := [LStart; LLoopAdd GatewayBackend; LStopCall;
             LClose GatewayBackend None;
             LClose ApplicationBackend (Some cause)] in
  exists s,
    run ls (NewServer example_ctx) = Some s
    /\ srv_stop s = StopReturned (Some (ErrCloseApplication cause))
    /\ stop_history ls
       = [LStopCall; LClose GatewayBackend None;
          LClose ApplicationBackend (Some cause)]
    /\ is_closed GatewayBackend s = true
    /\ is_closed ApplicationBackend s = false
    /\ is_closed ControllerBackend s = false
    /\ LStopWait ∉ ls.
Proof.
  intros cause ls. eexists. split; [reflexivity |].
  match goal with
  | |- srv_stop ?s = _ /\ _ =>
      destruct (Stop_close_failure example_ctx ls s ApplicationBackend cause)
        as (Hpc & Hhist & Hclosed & Hwait);
        [reflexivity | apply list_elem_of_In; simpl; tauto |]
  end.
  split; [exact Hpc |]. split; [exact Hhist |].
  rewrite !Hclosed. repeat split; try exact Hwait.
Defined.

Lemma worker_failure_is_logged_only_witness :
  let pkt := example_dataUp Proprietary 6 7 in
  exists s',
    step (LWorkerRun 0) example_server = Some s'
    /\ srv_ctx s' = example_ctx
    /\ srv_log s' = [LogRXPacketError pkt (ErrUnknownMType Proprietary)]
    /\ srv_loop s' = srv_loop example_server
    /\ srv_rxChan s' = srv_rxChan example_server
    /\ srv_stop s' = srv_stop example_server
    /\ is_Some (step (LReceive GatewayBackend) s').
Proof.
  intros pkt. eexists. split; [reflexivity |].
  match goal with
  | |- @srv_ctx _ ?s' = _ /\ _ =>
      destruct (worker_failure_is_logged_only example_server s' 0)
        as (b & j & Hw & Hctx & Hlog & _ & Hrx & _ & _ & _ & Hloop & _
            & Hstop & Henabled); [reflexivity |]
  end.
  injection Hw as <- <-.
  split; [rewrite Hctx; reflexivity |].
  split; [rewrite Hlog; reflexivity |].
  split; [exact Hloop |]. split; [exact Hrx |]. split; [exact Hstop |].
  apply Henabled; [discriminate | by eexists].
Defined.
End Examples.

(** ** The further properties on the network of the example *)

(** The supervisor runs on the store of the two queues. *)

Section SupervisorExamples.
#[local] Existing Instance QueueProcessors.

Ltac by_eval := vm_compute; reflexivity.

Lemma Stop_wait_sees_no_registered_loop_witness :
  let ls := removelast (early_return_schedule example_payload) in
  exists s s',
    run ls (NewServer queue_ctx) = Some s
    /\ step LStopWait s = Some s'
    /\ srv_stop s' = StopReturned None
    /\ forall b, srv_loop s' b = LoopNotSpawned
                 \/ srv_loop s' b = LoopSpawned
                 \/ srv_loop s' b = LoopExited.
Proof.
  intros ls. eexists. eexists. split; [by_eval |].
  match goal with
  | |- @step _ _ _ ?s = _ /\ _ =>
      split; [by_eval |];
      match goal with
      | |- @srv_stop _ ?s' = _ /\ _ =>
          apply (Stop_wait_sees_no_registered_loop queue_ctx ls s s');
            by_eval
      end
  end.
Defined.

Lemma loop_wait_sees_no_registered_worker_witness :
  let ls := [LStart; LLoopAdd ApplicationBackend;
             LProduce (JobTX example_payload); LReceive ApplicationBackend;
             LWorkerAdd 0; LWorkerRun 0; LWorkerDone 0;
             LStopCall; LClose GatewayBackend None;
             LClose ApplicationBackend None;
             LRangeEnd ApplicationBackend] in
  exists s s',
    run ls (NewServer queue_ctx) = Some s
    /\ step (LLoopWait ApplicationBackend) s = Some s'
    /\ length (srv_workers s') = 1%nat
    /\ forall w, In w (srv_workers s') -> w_loop w = ApplicationBackend ->
                 w_pc w = WorkerSpawned \/ w_pc w = WorkerExited.
Proof.
  intros ls. eexists. eexists. split; [by_eval |].
  match goal with
  | |- @step _ _ _ ?s = _ /\ _ =>
      split; [by_eval |]; split; [by_eval |];
      match goal with
      | |- forall w, In w (@srv_workers _ ?s') -> _ =>
          apply (loop_wait_sees_no_registered_worker queue_ctx ls s s'
                   ApplicationBackend); by_eval
      end
  end.
Defined.

Lemma Done_finds_positive_counter_witness :
  let ls := [LStart; LLoopAdd ApplicationBackend;
             LProduce (JobTX example_payload); LReceive ApplicationBackend;
             LWorkerAdd 0; LWorkerRun 0; LStopCall;
             LClose GatewayBackend None; LClose ApplicationBackend None;
             LRangeEnd ApplicationBackend] in
  exists s,
    run ls (NewServer queue_ctx) = Some s
    /\ is_Some (step (LWorkerDone 0) s)
    /\ (0 < srv_loop_wg s ApplicationBackend)%nat.
Proof.
  intros ls. eexists. split; [by_eval |].
  assert (forall P Q : Prop, P -> (P -> Q) -> P /\ Q) as Hand by tauto.
  apply Hand; [eexists; by_eval |]. intros Hstep.
  match type of Hstep with
  | is_Some (@step _ _ _ ?s) =>
      destruct (Done_finds_positive_counter queue_ctx ls s) as [_ Hworker];
        [by_eval |];
      exact (Hworker 0%nat
               (mkWorker ApplicationBackend (JobTX example_payload)
                  WorkerDeferred) eq_refl Hstep)
  end.
Defined.

Lemma items_conserved_witness :
  let ls := [LStart; LLoopAdd ApplicationBackend;
             LProduce (JobTX example_payload);
             LProduce (JobRX (example_join 0));
             LProduce (JobTX example_payload2);
             LReceive ApplicationBackend] in
  exists s,
    run ls (NewServer queue_ctx) = Some s
    /\ spawned ApplicationBackend s = [JobTX example_payload]
    /\ pending ApplicationBackend s = [JobTX example_payload2]
    /\ spawned ApplicationBackend s ++ pending ApplicationBackend s
       = [JobTX example_payload; JobTX example_payload2].
Proof.
  intros ls. eexists. split; [by_eval |].
  split; [by_eval |]. split; [by_eval |].
  match goal with
  | |- @spawned _ _ ?s ++ _ = _ =>
      rewrite (items_conserved queue_ctx ls s ApplicationBackend);
        by_eval
  end.
Defined.

Lemma ended_loop_has_spawned_all_witness :
  let ls := [LStart; LLoopAdd ApplicationBackend;
             LProduce (JobTX example_payload);
             LProduce (JobTX example_payload2);
             LStopCall; LClose GatewayBackend None;
             LClose ApplicationBackend None;
             LReceive ApplicationBackend; LReceive ApplicationBackend;
             LRangeEnd ApplicationBackend] in
  exists s,
    run ls (NewServer queue_ctx) = Some s
    /\ is_closed ApplicationBackend s = true
    /\ pending ApplicationBackend s = []
    /\ spawned ApplicationBackend s
       = [JobTX example_payload; JobTX example_payload2].
Proof.
  intros ls. eexists. split; [by_eval |].
  match goal with
  | |- @is_closed _ _ ?s = _ /\ _ =>
      destruct (ended_loop_has_spawned_all queue_ctx ls s ApplicationBackend)
        as (Hclosed & Hpending & Hspawned); [by_eval .. |];
      split; [exact Hclosed |]; split; [exact Hpending |];
      rewrite Hspawned; by_eval
  end.
Defined.

Lemma Stop_nil_closed_all_witness :
  let ls := early_return_schedule example_payload in
  exists s,
    run ls (NewServer queue_ctx) = Some s
    /\ srv_stop s = StopReturned None
    /\ stop_history ls
       = [LStopCall; LClose GatewayBackend None;
          LClose ApplicationBackend None; LClose ControllerBackend None;
          LStopWait]
    /\ forall b, is_closed b s = true.
Proof.
  intros ls. eexists. split; [by_eval |]. split; [by_eval |].
  match goal with
  | |- _ /\ (forall b, @is_closed _ b ?s = _) =>
      apply (Stop_nil_closed_all queue_ctx ls s); by_eval
  end.
Defined.

Lemma item_processed_once_witness :
  let ls := [LStart; LLoopAdd ApplicationBackend;
             LProduce (JobTX example_payload); LReceive ApplicationBackend;
             LWorkerAdd 0; LWorkerRun 0] in
  exists s,
    run ls (NewServer queue_ctx) = Some s
    /\ runs_of 0 ls = 1%nat
    /\ step (LWorkerRun 0) s = None
    /\ (runs_of 0 ls <= 1)%nat.
Proof.
  intros ls. eexists. split; [by_eval |]. split; [by_eval |].
  split; [by_eval |].
  match goal with
  | |- (runs_of 0 ls <= 1)%nat =>
      eapply (item_processed_once queue_ctx ls _ 0%nat); by_eval
  end.
Defined.
End SupervisorExamples.

(** The node API runs on the registry of the example. *)

Section NodeExamples.
#[local] Existing Instance HexLorawan.
#[local] Existing Instance HexLorawanText.
#[local] Existing Instance RegistryStorage.

Lemma NodeAPI_Create_effect_witness :
  let r := NodeAPI_Create example_ctx example_create in
  r.2 = inr tt
  /\ exists node,
       CreateNode (ctx_DB example_ctx) node = (ctx_DB r.1, None)
       /\ node_DevEUI node = 259
       /\ node_RXDelay node = 1
       /\ node_ChannelListID node = None.
Proof.
  intros r. split; [reflexivity |].
  destruct (NodeAPI_Create_effect example_ctx r.1 example_create)
    as (appEUI & devEUI & appKey & node & _ & Hd & _ & Hc & _ & Hdev & _ & _
        & Hdelay & _ & _ & _ & Hch); [reflexivity |].
  exists node. split; [exact Hc |].
  vm_compute in Hd. injection Hd as <-.
  split; [exact Hdev |]. split; [rewrite Hdelay; reflexivity |].
  rewrite Hch. reflexivity.
Defined.

Lemma NodeAPI_malformed_text_witness :
  NodeAPI_Create example_ctx
    (mkCreateNodeRequest "0000000000000103" "not an identity" "" 0 0 0)
  = (example_ctx, inl (ErrText "unexpected length"))
  /\ NodeAPI_Update example_ctx
       (mkUpdateNodeRequest "000000000000010g" "0000000000000201" "" 0 0 0)
     = (example_ctx, inl (ErrText "invalid hexadecimal text"))
  /\ NodeAPI_Delete example_ctx (mkDeleteNodeRequest "")
     = (example_ctx, inl (ErrText "unexpected length")).
Proof.
  destruct (NodeAPI_malformed_text example_ctx)
    as (Hc1 & _ & _ & _ & Hu2 & _ & Hd & _).
  split; [apply Hc1; reflexivity |].
  split; [apply (Hu2 _ 513); reflexivity |].
  apply Hd; reflexivity.
Defined.

Lemma NodeAPI_returnList_items_witness :
  exists resp,
    NodeAPI_returnList 7 [example_node; mkNode 259 513 44 2 1 (Some 5)]
    = inr resp
    /\ lresp_TotalCount resp = 7
    /\ length (lresp_Result resp) = 2%nat
    /\ (resp_ChannelListID <$> lresp_Result resp) = [0; 5].
Proof.
  eexists. split; [vm_compute; reflexivity |].
  match goal with
  | |- lresp_TotalCount ?resp = _ /\ _ =>
      destruct (NodeAPI_returnList_items 7
                  [example_node; mkNode 259 513 44 2 1 (Some 5)] resp)
        as (Hcount & Hlen & _); [vm_compute; reflexivity |]
  end.
  split; [exact Hcount |]. split; [exact Hlen | reflexivity].
Defined.

Lemma NodeAPI_Get_after_Create_witness :
  let ctx' := (NodeAPI_Create example_ctx example_create).1 in
  exists resp,
    NodeAPI_Get ctx' (mkGetNodeRequest "0000000000000103") = inr resp
    /\ resp_RxDelay resp = 1
    /\ resp_Rx1DROffset resp = 3
    /\ resp_ChannelListID resp = 0.
Proof.
  intros ctx'.
  destruct (NodeAPI_Get_after_Create example_ctx ctx' example_create)
    as (resp & Hget & Hdelay & Hoffset & Hch).
  - reflexivity.
  - intros node Hc. change (registry_CreateNode example_db node
                            = (ctx_DB ctx', None)) in Hc.
    unfold registry_CreateNode in Hc.
    destruct (db_nodes example_db !! node_DevEUI node); [discriminate |].
    apply (f_equal fst) in Hc. cbn [fst] in Hc. rewrite <- Hc.
    change (spec_GetNode
              (mkSpecDB (<[node_DevEUI node:=node]> (db_nodes example_db))
                 (db_applications example_db)) (node_DevEUI node) = inr node).
    unfold spec_GetNode. cbn [db_nodes]. by rewrite lookup_insert_eq.
  - intros e. by eexists.
  - intros k. by eexists.
  - exists resp. split; [exact Hget |].
    split; [rewrite Hdelay; reflexivity |].
    split; [rewrite Hoffset; reflexivity | rewrite Hch; reflexivity].
Defined.

Lemma API_CreateNodeSession_validation_witness :
  API_CreateNodeSession example_ctx (mkNodeSession 100663298 999 513 11 7 0 0)
  = (example_ctx, inl NotFoundError)
  /\ API_CreateNodeSession example_ctx (mkNodeSession 100663298 258 998 11 7 0 0)
     = (example_ctx, inl NotFoundError).
Proof.
  split.
  - refine (proj1 (API_CreateNodeSession_validation example_ctx
                     (mkNodeSession 100663298 999 513 11 7 0 0) _) _ _);
      reflexivity.
  - refine (proj1 (proj2 (API_CreateNodeSession_validation example_ctx
                            (mkNodeSession 100663298 258 998 11 7 0 0) _))
              example_node _ _ _); reflexivity.
Defined.
End NodeExamples.

Section StrictExamples.
#[local] Existing Instance HexLorawan.
#[local] Existing Instance StrictLorawanText.
#[local] Existing Instance NoCountStorage.

Lemma NodeAPI_returnList_first_error_witness :
  NodeAPI_returnList 3 [example_node; example_bad_node; example_node]
  = inl (ErrText "value out of range")
  /\ exists resp, NodeAPI_returnList 3 [example_node] = inr resp.
Proof.
  destruct (NodeAPI_returnList_first_error 3 [example_node] [example_node])
    as [Hfail Hok].
  - constructor; [| constructor]. eexists. vm_compute. reflexivity.
  - split; [| exact Hok].
    apply (Hfail example_bad_node). vm_compute. reflexivity.
Defined.

Lemma NodeAPI_List_count_error_witness :
  (exists resp,
     NodeAPI_List example_ctx (mkListNodeRequest 10 0) = inr resp
     /\ lresp_TotalCount resp = 0
     /\ length (lresp_Result resp) = 1%nat)
  /\ NodeAPI_ListByAppEUI example_ctx
       (mkListNodeByAppEUIRequest "0000000000000201" 10 0)
     = inl (ErrIO "count failed").
Proof.
  destruct (NodeAPI_List_count_error example_ctx (ErrIO "count failed"))
    as [Hlist Hby].
  split.
  - destruct (Hlist (mkListNodeRequest 10 0) [example_node] 0)
      as [_ Hresp]; [reflexivity .. |].
    apply Hresp. constructor; [| constructor]. eexists. vm_compute. reflexivity.
  - apply (Hby _ 513 [example_node] 0); reflexivity.
Defined.
End StrictExamples.
